(** * nnsight tracing protocols: a shallow embedding of
      [src/nnsight/tracing/protocols.py] and the properties of its five
      protocols (Apply-Submodule, Lock, Grad, Swap, Bridge). *)

From Stdlib Require Import ZArith String Ascii List Lia.
From stdpp Require Import base gmap strings list fin_maps pretty.
Import ListNotations.

Set Warnings "-register-all".

Local Open Scope string_scope.
Local Open Scope Z_scope.
Local Open Scope list_scope.

(** ** Python values *)

(** The objects the protocols pass around.  A node is referred to by the
    identifier of its graph and its name (Python holds the object itself), a
    tensor by its placement, an opaque payload and whether it requires a
    gradient, a torch module by the
    identifier of its [forward], the parameters [parameters()] yields and its
    attributes; the Bridge directory by the graph identifiers it knows and its
    [release] flag. *)
Inductive Value : Type :=
| VEmpty                                   (* inspect._empty *)
| VNone
| VBool (b : bool)
| VInt (z : Z)
| VStr (s : string)
| VTensor (device : string) (data : Z) (requires_grad : bool)
| VNode (gid : Z) (name : string)
| VList (items : list Value)
| VModule (fwd : nat) (parameters : list Value) (attrs : list (string * Value))
| VBridge (id_to_graph : list Z) (release : bool).

Definition NodeRef : Type := Z * string.

Definition is_tensor (v : Value) : bool :=
  match v with VTensor _ _ _ => true | _ => false end.

Definition is_node (v : Value) : bool :=
  match v with VNode _ _ => true | _ => false end.

(** ** util *)

Module util.

(** Modelled from the spec: [util.apply] is not under src/.  "Recursively
    unwrapped": the function is applied to every element of the given class,
    through lists; anything else is returned as it is. *)
Fixpoint apply (data : Value) (fn : Value -> Value) (cls : Value -> bool) : Value :=
  if cls data then fn data
  else match data with
       | VList items => VList (map (fun d => apply d fn cls) items)
       | _ => data
       end.

(** The elements [apply] visits, in the order it visits them: what a callback
    that only records (such as [_device]) gets to see. *)
Fixpoint visited (data : Value) (cls : Value -> bool) : list Value :=
  if cls data then [data]
  else match data with
       | VList items => flat_map (fun d => visited d cls) items
       | _ => []
       end.

Fixpoint split_on (sep : ascii) (s : string) : list string :=
  match s with
  | EmptyString => [EmptyString]
  | String c rest =>
      if Ascii.eqb c sep then EmptyString :: split_on sep rest
      else match split_on sep rest with
           | [] => [String c EmptyString]
           | h :: t => String c h :: t
           end
  end.

Fixpoint assoc (k : string) (l : list (string * Value)) : option Value :=
  match l with
  | [] => None
  | (k', v) :: rest => if String.eqb k k' then Some v else assoc k rest
  end.

End util.

(** ** Nodes, graphs and the store *)

Record Node : Type := mkNode {
  node_target : string;
  node_args : list Value;
  node_kwargs : list (string * Value);
  node_proxy_value : Value;
  node_value : Value;
  node_listeners : list NodeRef
}.

Record Graph : Type := mkGraph {
  nodes : gmap string Node;
  attachments : gmap string Value;
  validate : bool;
  name_idx : gmap string nat
}.

(** A callback registered on a tensor by [GradProtocol.execute]: the cells its
    closure captured ([node], [backward_idx]) and whether the handle returned
    by [register_hook] is still registered. *)
Record GradHook : Type := mkHook {
  hook_tensor : Value;
  hook_node : NodeRef;
  hook_backward_idx : Z;
  hook_registered : bool
}.

(** Graphs are shared and mutated in place, so they live in a store keyed by
    their identifier; so do the registered callbacks.  The store also keeps,
    in order, the calls of [Node.set_value] made so far: which node, what
    value. *)
Record World : Type := MkWorld {
  graphs : gmap Z Graph;
  hooks : list GradHook;
  writes : list (NodeRef * Value)
}.

(** A store in which no value has been set yet. *)
Definition mkWorld (graphs : gmap Z Graph) (hooks : list GradHook) : World :=
  MkWorld graphs hooks [].

(** ** Exceptions and the state monad *)

Inductive Exn : Type :=
| KeyError (key : Value)
| IndexError
| ValueError
| AttributeError (attr : string)
| StopIteration
| TypeError
| RuntimeError (msg : string)
| NameError (name : string)
| DanglingRef.   (* a reference to an object absent from the store: no Python run reaches it *)

Inductive Res (A : Type) : Type :=
| Ok (a : A)
| Raise (e : Exn).
Arguments Ok {A} a.
Arguments Raise {A} e.

(** A computation reads and writes the store; what it wrote before raising
    stays written. *)
Definition M (A : Type) : Type := World -> Res A * World.

Definition ret {A} (a : A) : M A := fun w => (Ok a, w).

Definition raise {A} (e : Exn) : M A := fun w => (Raise e, w).

Definition bind {A B} (m : M A) (k : A -> M B) : M B :=
  fun w => match m w with
           | (Ok a, w') => k a w'
           | (Raise e, w') => (Raise e, w')
           end.

(** [try: ... except: ...] with a bare [except]. *)
Definition try_except {A} (m : M A) (handler : M A) : M A :=
  fun w => match m w with
           | (Ok a, w') => (Ok a, w')
           | (Raise _, w') => handler w'
           end.

Definition lift {A} (r : Res A) : M A := fun w => (r, w).

Notation "x <- m ;; k" := (bind m (fun x => k))
  (at level 90, m at next level, right associativity).
Notation "m ;;; k" := (bind m (fun _ => k))
  (at level 90, right associativity).

Definition get_graph (gid : Z) : M Graph :=
  fun w => match graphs w !! gid with
           | Some g => (Ok g, w)
           | None => (Raise DanglingRef, w)
           end.

Definition put_graph (gid : Z) (g : Graph) : M unit :=
  fun w => (Ok tt, MkWorld (<[gid := g]> (graphs w)) (hooks w) (writes w)).

Definition get_node (r : NodeRef) : M Node :=
  g <- get_graph (fst r) ;;
  match nodes g !! snd r with
  | Some n => ret n
  | None => raise DanglingRef
  end.

Definition put_node (r : NodeRef) (n : Node) : M unit :=
  g <- get_graph (fst r) ;;
  put_graph (fst r) (mkGraph (<[snd r := n]> (nodes g)) (attachments g) (validate g) (name_idx g)).

(** The call [node.set_value(v)] enters the record of the store. *)
Definition record_write (r : NodeRef) (v : Value) : M unit :=
  fun w => (Ok tt, MkWorld (graphs w) (hooks w) (writes w ++ [(r, v)])).

(** [graph.attachments.get(key, default)] *)
Definition attachments_get (gid : Z) (key : string) (default : Value) : M Value :=
  g <- get_graph gid ;;
  ret (match attachments g !! key with Some v => v | None => default end).

(** [graph.attachments[key]] *)
Definition attachments_getitem (gid : Z) (key : string) : M Value :=
  g <- get_graph gid ;;
  match attachments g !! key with
  | Some v => ret v
  | None => raise (KeyError (VStr key))
  end.

(** [graph.attachments[key] = v] *)
Definition attachments_setitem (gid : Z) (key : string) (v : Value) : M unit :=
  g <- get_graph gid ;;
  put_graph gid (mkGraph (nodes g) (<[key := v]> (attachments g)) (validate g) (name_idx g)).

(** Pure reads, for the callbacks handed to [util.apply]. *)
Definition lookup_node (w : World) (r : NodeRef) : option Node :=
  g ← graphs w !! fst r; nodes g !! snd r.

Definition value_of (w : World) (v : Value) : Value :=
  match v with
  | VNode gid name =>
      match lookup_node w (gid, name) with Some n => node_value n | None => VEmpty end
  | _ => v
  end.

Definition proxy_value_of (w : World) (v : Value) : Value :=
  match v with
  | VNode gid name =>
      match lookup_node w (gid, name) with Some n => node_proxy_value n | None => VEmpty end
  | _ => v
  end.

(** [value.to(device)] *)
Definition to (device : string) (v : Value) : Value :=
  match v with
  | VTensor _ data requires_grad => VTensor device data requires_grad
  | _ => v
  end.

(** [l[i]] for a constant, non-negative index. *)
Definition getitem (l : list Value) (i : nat) : M Value :=
  match nth_error l i with
  | Some v => ret v
  | None => raise IndexError
  end.

(** ** The graph engine, at the interface the protocols use *)

Definition with_value (n : Node) (v : Value) : Node :=
  mkNode (node_target n) (node_args n) (node_kwargs n) (node_proxy_value n) v (node_listeners n).

Definition with_listener (l : NodeRef) (n : Node) : Node :=
  mkNode (node_target n) (node_args n) (node_kwargs n) (node_proxy_value n) (node_value n)
         (node_listeners n ++ [l]).

(** A node has a listener. *)
Definition has_listener (n : Node) : bool :=
  match node_listeners n with [] => false | _ => true end.

Definition as_ref (v : Value) : list NodeRef :=
  match v with VNode gid name => [(gid, name)] | _ => [] end.

(** The nodes a list of arguments refers to. *)
Definition node_refs (vs : list Value) : list NodeRef :=
  flat_map (fun v => flat_map as_ref (util.visited v is_node)) vs.

Definition add_listener (l r : NodeRef) (w : World) : World :=
  MkWorld
    (alter (fun g => mkGraph (alter (with_listener l) (snd r) (nodes g))
                             (attachments g) (validate g) (name_idx g))
           (fst r) (graphs w))
    (hooks w) (writes w).

Definition add_listeners (l : NodeRef) (rs : list NodeRef) (w : World) : World :=
  fold_left (fun w r => add_listener l r w) rs w.

Module Graph.

(** Modelled from the spec: [Graph.create] is not under src/.  "Allocates a
    new node": the node gets a name unique within its graph (the target and a
    per-target counter), no value yet, and is registered as a listener
    ("attached") of every node among its arguments. *)
Definition create (gid : Z) (target : string) (proxy_value : Value)
    (args : list Value) (kwargs : list (string * Value)) : M NodeRef :=
  g <- get_graph gid ;;
  let idx := default 0%nat (name_idx g !! target) in
  let name := target +:+ "_" +:+ pretty idx in
  (fun w => (Ok tt, add_listeners (gid, name) (node_refs args ++ node_refs (map snd kwargs)) w)) ;;;
  g <- get_graph gid ;;
  put_graph gid (mkGraph (<[name := mkNode target args kwargs proxy_value VEmpty []]> (nodes g))
                         (attachments g) (validate g)
                         (<[target := S idx]> (name_idx g))) ;;;
  ret (gid, name).

End Graph.

Module Node.

(** Modelled from the spec: [Node.create] is not under src/; a node allocates
    through the graph that owns it. *)
Definition create (node : NodeRef) (target : string) (proxy_value : Value)
    (args : list Value) (kwargs : list (string * Value)) : M NodeRef :=
  Graph.create (fst node) target proxy_value args kwargs.

(** Modelled from the spec: [Node.set_value] is not under src/; it "publishes"
    the result as the node's value.  What the engine then does with the nodes
    that wait for it is outside this layer. *)
Definition set_value (node : NodeRef) (v : Value) : M unit :=
  n <- get_node node ;;
  put_node node (with_value n v) ;;;
  record_write node v.

(** Modelled from the spec: [Node.attached] is not under src/; it "queries
    whether a listener is registered". *)
Definition attached (node : NodeRef) : M bool :=
  n <- get_node node ;;
  ret (has_listener n).

(** Modelled from the spec: [Node.prepare_inputs] is not under src/; it
    "resolves argument nodes to concrete values". *)
Definition prepare_inputs (node : NodeRef) : M (list Value * list (string * Value)) :=
  n <- get_node node ;;
  fun w =>
    (Ok (map (fun a => util.apply a (value_of w) is_node) (node_args n),
         map (fun kv => (fst kv, util.apply (snd kv) (value_of w) is_node)) (node_kwargs n)),
     w).

(** Modelled from the spec: [Node.prepare_proxy_values] is not under src/; it
    "lifts" values into placeholders: nodes become their proxy values, and the
    tensors are placed on the device when one is known. *)
Definition prepare_proxy_values (w : World) (device : option string) (v : Value) : Value :=
  let v := util.apply v (proxy_value_of w) is_node in
  match device with
  | Some d => util.apply v (to d) is_tensor
  | None => v
  end.

End Node.

(** [getattr(object, atom)]: only modules carry attributes here. *)
Definition getattr (object : Value) (atom : string) : Res Value :=
  match object with
  | VModule _ _ attrs =>
      match util.assoc atom attrs with
      | Some v => Ok v
      | None => Raise (AttributeError atom)
      end
  | _ => Raise (AttributeError atom)
  end.

(** Modelled from the spec: [util.fetch_attr] is not under src/; it resolves
    an "attribute path", the atoms between the dots, one [getattr] each. *)
Definition fetch_attr (object : Value) (target : Value) : Res Value :=
  match target with
  | VStr path =>
      fold_left (fun acc atom => match acc with
                                 | Ok o => getattr o atom
                                 | Raise e => Raise e
                                 end)
                (util.split_on "."%char path) (Ok object)
  | _ => Raise (AttributeError "split")
  end.

(** What a module's [forward] computes on its arguments is the tensor library's
    business: a parameter of the model. *)
Definition Forward : Type := nat -> list Value -> list (string * Value) -> Res Value.

(** ** The protocols *)

Module Protocol.

(** [Protocol.execute]: [pass]. *)
Definition execute (node : NodeRef) : M unit := ret tt.

End Protocol.

(** [from typing import TYPE_CHECKING]: false when the program runs. *)
Definition TYPE_CHECKING : bool := false.

(** The name [Node] in [protocols.py]: the import that binds it stands under
    [if TYPE_CHECKING:], so evaluating the name at run time raises. *)
Definition Node_name {A} (bound : M A) : M A :=
  if TYPE_CHECKING then bound else raise (NameError "Node").

Module ApplyModuleProtocol.

Definition name : string := "module".
Definition attachment_name : string := "nnsight_root_module".

Definition set_module (gid : Z) (module : Value) : M unit :=
  attachments_setitem gid attachment_name module.

Definition get_module (gid : Z) : M Value :=
  attachments_getitem gid attachment_name.

Definition call_module (forward : Forward) (gid : Z) (module_path : Value)
    (args : list Value) (kwargs : list (string * Value)) : M Value :=
  root <- get_module gid ;;
  module <- lift (fetch_attr root module_path) ;;
  match module with
  | VModule fwd _ _ => lift (forward fwd args kwargs)
  | _ => raise (AttributeError "forward")
  end.

(** [next(module.parameters()).device] *)
Definition first_parameter_device (module : Value) : M (option string) :=
  match module with
  | VModule _ parameters _ =>
      match parameters with
      | [] => raise StopIteration
      | VTensor device _ _ :: _ => ret (Some device)
      | _ :: _ => raise (AttributeError "device")
      end
  | _ => raise (AttributeError "parameters")
  end.

(** The body of the [try] block of [add]. *)
Definition device_of_root (gid : Z) : M (option string) :=
  module <- get_module gid ;;
  first_parameter_device module.

(** The [try] block with its bare [except]. *)
Definition resolve_device (gid : Z) : M (option string) :=
  try_except (device_of_root gid) (ret None).

Definition add (forward : Forward) (gid : Z) (module_path : Value)
    (args : list Value) (kwargs : list (string * Value)) : M NodeRef :=
  g <- get_graph gid ;;
  value <- (if validate g then
              device <- resolve_device gid ;;
              Node_name (fun w =>
                call_module forward gid module_path
                  (map (Node.prepare_proxy_values w device) args)
                  (map (fun kv => (fst kv, Node.prepare_proxy_values w device (snd kv))) kwargs)
                  w)
            else ret VEmpty) ;;
  Graph.create gid name value (module_path :: args) kwargs.

Definition execute (forward : Forward) (node : NodeRef) : M unit :=
  inputs <- Node.prepare_inputs node ;;
  match fst inputs with
  | [] => raise ValueError
  | module_path :: args =>
      output <- call_module forward (fst node) module_path args (snd inputs) ;;
      Node.set_value node output
  end.

End ApplyModuleProtocol.

Module LockProtocol.

Definition name : string := "lock".

Definition add (node : NodeRef) : M NodeRef :=
  Node.create node name VNone [VNode (fst node) (snd node)] [].

(** Inherited from [Protocol]. *)
Definition execute : NodeRef -> M unit := Protocol.execute.

End LockProtocol.

Module SwapProtocol.

Definition name : string := "swap".
Definition attachment_name : string := "nnsight_swap".

Definition add (node : NodeRef) (value : Value) : M NodeRef :=
  Node.create node name (VBool true) [VNode (fst node) (snd node); value] [].

Definition execute (node : NodeRef) : M unit :=
  swap <- attachments_get (fst node) attachment_name VNone ;;
  match swap with
  | VNone => ret tt
  | VNode gid sname => Node.set_value (gid, sname) (VBool false)
  | _ => raise (AttributeError "set_value")
  end ;;;
  attachments_setitem (fst node) attachment_name (VNode (fst node) (snd node)).

(** What [_device] leaves in [device] once [util.apply] has run it over the
    tensors of [value]: the placement of the last one visited, if any. *)
Definition recorded_device (value : Value) : option string :=
  last (flat_map (fun t => match t with VTensor d _ _ => [d] | _ => [] end)
                 (util.visited value is_tensor)).

(** The replacement once a device was (or was not) recorded. *)
Definition relocate (device : option string) (value : Value) : Value :=
  match device with
  | Some d => util.apply value (to d) is_tensor
  | None => value
  end.

Definition get_swap (gid : Z) (value : Value) : M Value :=
  swap <- attachments_get gid attachment_name VNone ;;
  match swap with
  | VNone => ret value
  | VNode sgid sname =>
      let device := recorded_device value in
      snode <- get_node (sgid, sname) ;;
      stored <- getitem (node_args snode) 1 ;;
      value <- (fun w => (Ok (util.apply stored (value_of w) is_node), w)) ;;
      let value := relocate device value in
      Node.set_value (sgid, sname) (VBool true) ;;;
      attachments_setitem gid attachment_name VNone ;;;
      ret value
  | _ => raise (AttributeError "args")
  end.

End SwapProtocol.

Definition get_hook (h : nat) : M GradHook :=
  fun w => match hooks w !! h with
           | Some e => (Ok e, w)
           | None => (Raise DanglingRef, w)
           end.

Definition put_hook (h : nat) (e : GradHook) : M unit :=
  fun w => (Ok tt, MkWorld (graphs w) (<[h := e]> (hooks w)) (writes w)).

(** [tensor.register_hook(callback)]: the handle is the position of the
    callback among those registered so far.  torch refuses a tensor that
    does not require a gradient. *)
Definition register_hook (tensor : Value) (node : NodeRef) (backward_idx : Z) : M nat :=
  match tensor with
  | VTensor _ _ true =>
      fun w => (Ok (length (hooks w)),
                MkWorld (graphs w) (hooks w ++ [mkHook tensor node backward_idx true])
                        (writes w))
  | VTensor _ _ false =>
      raise (RuntimeError "cannot register a hook on a tensor that doesn't require gradient")
  | _ => raise (AttributeError "register_hook")
  end.

(** [hook.remove()] *)
Definition hook_remove (h : nat) : M unit :=
  e <- get_hook h ;;
  put_hook h (mkHook (hook_tensor e) (hook_node e) (hook_backward_idx e) false).

Definition set_backward_idx (h : nat) (i : Z) : M unit :=
  e <- get_hook h ;;
  put_hook h (mkHook (hook_tensor e) (hook_node e) i (hook_registered e)).

Module GradProtocol.

Definition name : string := "grad".
Definition attachment_name : string := "nnsight_backward_idx".

Definition add (node : NodeRef) : M NodeRef :=
  backward_idx <- attachments_get (fst node) attachment_name (VInt 0) ;;
  n <- get_node node ;;
  Node.create node name (node_proxy_value n) [VNode (fst node) (snd node); backward_idx] [].

(** The closure [grad] of [execute], for the callback with handle [h]. *)
Definition grad (h : nat) (value : Value) : M Value :=
  e <- get_hook h ;;
  if hook_backward_idx e =? 0 then
    Node.set_value (hook_node e) value ;;;
    attached <- Node.attached (hook_node e) ;;
    value <- (if attached : bool
              then SwapProtocol.get_swap (fst (hook_node e)) value
              else ret value) ;;
    set_backward_idx h (-1) ;;;
    hook_remove h ;;;
    ret value
  else
    set_backward_idx h (hook_backward_idx e - 1) ;;;
    ret VNone.

(** [backward_idx: int = args[1]]: the counter is the integer that [add] took
    from the graph; anything else is refused here. *)
Definition execute (node : NodeRef) : M unit :=
  inputs <- Node.prepare_inputs node ;;
  tensor <- getitem (fst inputs) 0 ;;
  backward_idx <- getitem (fst inputs) 1 ;;
  match backward_idx with
  | VInt i => register_hook tensor node i ;;; ret tt
  | _ => raise TypeError
  end.

Definition increment (gid : Z) : M unit :=
  backward_idx <- attachments_get gid attachment_name (VInt 0) ;;
  match backward_idx with
  | VInt i => attachments_setitem gid attachment_name (VInt (i + 1))
  | _ => raise TypeError
  end.

End GradProtocol.

(** The reverse traversal reaching the tensor once more: the callback runs if
    it is still registered, and what it returns (unless [None]) replaces the
    gradient. *)
Definition occurrence (h : nat) (value : Value) : M Value :=
  e <- get_hook h ;;
  if hook_registered e then GradProtocol.grad h value else ret VNone.

Fixpoint occurrences (h : nat) (values : list Value) : M (list Value) :=
  match values with
  | [] => ret []
  | v :: rest =>
      r <- occurrence h v ;;
      rs <- occurrences h rest ;;
      ret (r :: rs)
  end.

(** The closure called again and again, whether still registered or not. *)
Fixpoint calls (h : nat) (values : list Value) : M (list Value) :=
  match values with
  | [] => ret []
  | v :: rest =>
      r <- GradProtocol.grad h v ;;
      rs <- calls h rest ;;
      ret (r :: rs)
  end.

Module Bridge.

(** Modelled from the spec: the class [Bridge] is not under src/; its
    directory maps "graph identifier to graph instance". *)
Definition get_graph (bridge : Value) (graph_id : Value) : M Z :=
  match bridge with
  | VBridge ids _ =>
      match graph_id with
      | VInt gid =>
          if decide (gid ∈ ids) then get_graph gid ;;; ret gid
          else raise (KeyError graph_id)
      | _ => raise (KeyError graph_id)
      end
  | _ => raise (AttributeError "get_graph")
  end.

Definition release (bridge : Value) : M bool :=
  match bridge with
  | VBridge _ r => ret r
  | _ => raise (AttributeError "release")
  end.

End Bridge.

Module BridgeProtocol.

Definition name : string := "bridge".
Definition attachment_name : string := "nnsight_bridge".

Definition set_bridge (gid : Z) (bridge : Value) : M unit :=
  attachments_setitem gid attachment_name bridge.

Definition has_bridge (gid : Z) : M bool :=
  g <- get_graph gid ;;
  ret (bool_decide (is_Some (attachments g !! attachment_name))).

Definition get_bridge (gid : Z) : M Value :=
  has <- has_bridge gid ;;
  (if negb has then ret tt (* TODO error *) else ret tt) ;;;
  attachments_getitem gid attachment_name.

Definition add (from_node to_node : NodeRef) : M NodeRef :=
  lock_node <- LockProtocol.add from_node ;;
  n <- get_node from_node ;;
  Node.create to_node name (node_proxy_value n)
    [VInt (fst from_node); VStr (snd lock_node)] [].

(** [graph.nodes[name]] *)
Definition nodes_getitem (gid : Z) (key : Value) : M NodeRef :=
  g <- get_graph gid ;;
  match key with
  | VStr s => match nodes g !! s with
              | Some _ => ret (gid, s)
              | None => raise (KeyError key)
              end
  | _ => raise (KeyError key)
  end.

Definition execute (node : NodeRef) : M unit :=
  bridge <- get_bridge (fst node) ;;
  n <- get_node node ;;
  match node_args n with
  | [from_graph_id; lock_node_name] =>
      from_graph <- Bridge.get_graph bridge from_graph_id ;;
      lock_node <- nodes_getitem from_graph lock_node_name ;;
      ln <- get_node lock_node ;;
      value_node <- getitem (node_args ln) 0 ;;
      match value_node with
      | VNode vgid vname =>
          vn <- get_node (vgid, vname) ;;
          Node.set_value node (node_value vn) ;;;
          release <- Bridge.release bridge ;;
          if release : bool then Node.set_value lock_node VNone else ret tt
      | _ => raise (AttributeError "value")
      end
  | _ => raise ValueError
  end.

End BridgeProtocol.

(** ** The registry *)

Record ProtocolEntry : Type := mkProtocol {
  protocol_name : string;
  protocol_execute : NodeRef -> M unit
}.

Definition register_protocol (protocol : ProtocolEntry)
    (registry : gmap string ProtocolEntry) : gmap string ProtocolEntry :=
  <[protocol_name protocol := protocol]> registry.

(** The five classes decorated with [@register_protocol], in source order. *)
Definition PROTOCOLS (forward : Forward) : gmap string ProtocolEntry :=
  register_protocol (mkProtocol BridgeProtocol.name BridgeProtocol.execute)
  (register_protocol (mkProtocol SwapProtocol.name SwapProtocol.execute)
  (register_protocol (mkProtocol GradProtocol.name GradProtocol.execute)
  (register_protocol (mkProtocol LockProtocol.name LockProtocol.execute)
  (register_protocol (mkProtocol ApplyModuleProtocol.name (ApplyModuleProtocol.execute forward))
   ∅)))).

(** ** Views of the store and the updates the protocols make *)

Definition graph_attachments (w : World) (gid : Z) : option (gmap string Value) :=
  attachments <$> graphs w !! gid.

Definition store_node (r : NodeRef) (n : Node) (w : World) : World :=
  MkWorld
    (alter (fun g => mkGraph (<[snd r := n]> (nodes g)) (attachments g) (validate g) (name_idx g))
           (fst r) (graphs w))
    (hooks w)
    (writes w ++ [(r, node_value n)]).

Definition store_attachment (gid : Z) (key : string) (v : Value) (w : World) : World :=
  MkWorld
    (alter (fun g => mkGraph (nodes g) (<[key := v]> (attachments g)) (validate g) (name_idx g))
           gid (graphs w))
    (hooks w)
    (writes w).


(** ** Example stores *)

(** A [forward] that tags its arguments with the module it belongs to. *)
Definition example_forward : Forward :=
  fun fwd args kwargs => Ok (VList (VInt (Z.of_nat fwd) :: args)).

(** Graph 1 holds one executed node, [x_0]. *)
Definition example_graph : Graph :=
  mkGraph {[ "x_0" := mkNode "x" [] [] (VTensor "meta" 0 true) (VTensor "cpu" 42 true) [] ]}
          ∅ false ∅.

Definition example_world : World := mkWorld {[ 1 := example_graph ]} [].

(** The graph's swap attachment is usable: there is none, or it is a swap node
    of the store with its two arguments, as [SwapProtocol.add] builds them. *)
Definition swap_ready (w : World) (gid : Z) : Prop :=
  exists a, graph_attachments w gid = Some a /\
    match a !! "nnsight_swap" with
    | None | Some VNone => True
    | Some (VNode sgid sname) =>
        exists s stored, lookup_node w (sgid, sname) = Some s /\
                         nth_error (node_args s) 1 = Some stored
    | Some _ => False
    end.

(** Graph 2 holds two nodes and a swap node on each of them, built as
    [SwapProtocol.add] builds them, none executed yet. *)
Definition swap_n : Node := mkNode "n" [] [] VNone VEmpty [(2, "swap_0")].
Definition swap_m : Node := mkNode "m" [] [] VNone VEmpty [(2, "swap_1")].
Definition swap_0 : Node := mkNode "swap" [VNode 2 "n_0"; VInt 5] [] (VBool true) VEmpty [].
Definition swap_1 : Node := mkNode "swap" [VNode 2 "m_0"; VInt 7] [] (VBool true) VEmpty [].

Definition swap_graph (active : gmap string Value) : Graph :=
  mkGraph (<["n_0" := swap_n]> (<["m_0" := swap_m]>
           (<["swap_0" := swap_0]> (<["swap_1" := swap_1]> ∅))))
          active false ∅.

Definition swap_world (active : gmap string Value) : World :=
  mkWorld {[ 2 := swap_graph active ]} [].

(** Graph 3 has a root module [M] without parameters whose attribute
    [layer1] is a module, and an apply node on [x_0]; [validating] says
    whether the graph validates. *)
Definition example_root : Value :=
  VModule 0 [] [("layer1", VModule 7 [] [])].

Definition module_0 : Node :=
  mkNode "module" [VStr "layer1"; VNode 3 "x_0"] [] VEmpty VEmpty [].

Definition module_graph (validating : bool) (a : gmap string Value) : Graph :=
  mkGraph (<["x_0" := mkNode "x" [] [] (VTensor "meta" 0 true) (VTensor "cpu" 42 true) [(3, "module_0")]]>
           (<["module_0" := module_0]> ∅))
          a validating (<["module" := 1%nat]> ∅).

Definition module_world (validating : bool) (a : gmap string Value) : World :=
  mkWorld {[ 3 := module_graph validating a ]} [].

(** Graphs 5 and 6 share a Bridge directory; [x_0] of graph 5 is executed and
    locked by [lock_0], and [bridge_0] of graph 6 waits for its value. *)
Definition bridge_source : Graph :=
  mkGraph (<["x_0" := mkNode "x" [] [] (VTensor "meta" 0 true) (VTensor "cpu" 42 true) [(5, "lock_0")]]>
           (<["lock_0" := mkNode "lock" [VNode 5 "x_0"] [] VNone VEmpty []]> ∅))
          ∅ false (<["lock" := 1%nat]> ∅).

Definition bridge_0 : Node :=
  mkNode "bridge" [VInt 5; VStr "lock_0"] [] (VTensor "meta" 0 true) VEmpty [].

Definition bridge_target (release : bool) : Graph :=
  mkGraph (<["bridge_0" := bridge_0]> ∅)
          {[ "nnsight_bridge" := VBridge [5; 6] release ]} false (<["bridge" := 1%nat]> ∅).

Definition bridge_world (release : bool) : World :=
  mkWorld (<[5 := bridge_source]> (<[6 := bridge_target release]> ∅)) [].

Definition store_hook (h : nat) (e : GradHook) (w : World) : World :=
  MkWorld (graphs w) (<[h := e]> (hooks w)) (writes w).

(** A computation that leaves the registered callbacks alone. *)
Definition keeps_hooks {A} (m : M A) : Prop :=
  forall w, hooks (snd (m w)) = hooks w.

(** What the CAPTURE branch does before it touches its own cells. *)
Definition capture_consult (node : NodeRef) (v : Value) : M Value :=
  Node.set_value node v ;;;
  attached <- Node.attached node ;;
  if attached : bool then SwapProtocol.get_swap (fst node) v else ret v.

(** Graph 7: the tensor [t_0], a grad node on it that targets the second
    occurrence, and a swap node attached to nothing that is active. *)
Definition grad_0 : Node :=
  mkNode "grad" [VNode 7 "t_0"; VInt 1] [] (VTensor "meta" 0 true) VEmpty [].

Definition grad_graph : Graph :=
  mkGraph (<["t_0" := mkNode "t" [] [] (VTensor "meta" 0 true) (VTensor "cpu" 3 true) [(7, "grad_0")]]>
           (<["grad_0" := grad_0]> ∅))
          {[ "nnsight_backward_idx" := VInt 1 ]} false (<["grad" := 1%nat]> ∅).

Definition grad_world : World := mkWorld {[ 7 := grad_graph ]} [].

(** ** Further notions *)

(** Every entry of a registry sits under its protocol's own name. *)
Definition registry_ok (registry : gmap string ProtocolEntry) : Prop :=
  forall key p, registry !! key = Some p -> protocol_name p = key.

(** [GradProtocol.increment] called [k] times in a row. *)
Fixpoint increments (k : nat) (gid : Z) : M unit :=
  match k with
  | O => ret tt
  | S k' => GradProtocol.increment gid ;;; increments k' gid
  end.

(** Two nodes that differ at most in their listeners. *)
Definition same_core (n n' : Node) : Prop :=
  node_target n' = node_target n /\ node_args n' = node_args n /\
  node_kwargs n' = node_kwargs n /\ node_proxy_value n' = node_proxy_value n /\
  node_value n' = node_value n.

(** The name [Graph.create] gives the next node of a target. *)
Definition next_name (g : Graph) (target : string) : string :=
  target +:+ "_" +:+ pretty (default 0%nat (name_idx g !! target)).

(** A computation that only reads the store. *)
Definition reads_only {A} (m : M A) : Prop :=
  forall w, snd (m w) = w.

(** A computation that has written nothing whenever it raises. *)
Definition fails_clean {A} (m : M A) : Prop :=
  forall w e w', m w = (Raise e, w') -> w' = w.

(** The bridge store with a bridge node of other arguments. *)
Definition bridge_world_args (args : list Value) : World :=
  mkWorld
    (<[5 := bridge_source]>
     (<[6 := mkGraph (<["bridge_0" := mkNode "bridge" args [] (VTensor "meta" 0 true) VEmpty []]> ∅)
                     {[ "nnsight_bridge" := VBridge [5; 6] true ]} false
                     (<["bridge" := 1%nat]> ∅)]> ∅))
    [].

(** Graph 8: the executed tensor node [t_0], a grad node waiting for its
    first occurrence, and a swap node on that grad node that is the graph's
    active swap; its replacement is a list of the grad node itself and a
    tensor. *)
Definition capture_grad : Node :=
  mkNode "grad" [VNode 8 "t_0"; VInt 0] [] (VTensor "meta" 0 true) VEmpty [(8, "swap_0")].

Definition capture_swap : Node :=
  mkNode "swap" [VNode 8 "grad_0"; VList [VNode 8 "grad_0"; VTensor "cpu" 1 true]] []
         (VBool true) VEmpty [].

Definition capture_world : World :=
  mkWorld
    {[ 8 := mkGraph
              (<["t_0" := mkNode "t" [] [] (VTensor "meta" 0 true) (VTensor "cuda" 3 true)
                                 [(8, "grad_0")]]>
               (<["grad_0" := capture_grad]> (<["swap_0" := capture_swap]> ∅)))
              {[ "nnsight_swap" := VNode 8 "swap_0" ]} false ∅ ]}
    [mkHook (VTensor "cuda" 3 true) (8, "grad_0") 0 true].

(** A tensor placed on [d]. *)
Definition on_device (d : string) (t : Value) : Prop :=
  exists data requires_grad, t = VTensor d data requires_grad.

(** What a construction step on [node] that only creates the next node of
    [target] leaves behind: the new node's name, [node] attached and
    otherwise as it was, every other node as it was up to its listeners,
    attachments and callbacks untouched. *)
Definition only_creates (w : World) (node : NodeRef) (n : Node) (g : Graph)
    (target : string) (op : M NodeRef) : Prop :=
  exists w' n',
    op w = (Ok (fst node, next_name g target), w') /\
    hooks w' = hooks w /\
    (forall gid, graph_attachments w' gid = graph_attachments w gid) /\
    lookup_node w' node = Some n' /\ same_core n n' /\ has_listener n' = true /\
    (forall r m, r <> (fst node, next_name g target) -> lookup_node w r = Some m ->
       exists m', lookup_node w' r = Some m' /\ same_core m m').

(** A replacement "unwrapped to real values", in the specification's words:
    every node in it, through lists, stands for the value it holds (a node
    without a value for the unset marker). *)
Fixpoint real_value (w : World) (x : Value) : Value :=
  match x with
  | VNode gid name =>
      match lookup_node w (gid, name) with
      | Some m => node_value m
      | None => VEmpty
      end
  | VList items => VList (map (real_value w) items)
  | _ => x
  end.



(** ** Lemmas about the store *)

Lemma get_graph_ok w gid g :
  graphs w !! gid = Some g -> get_graph gid w = (Ok g, w).
Proof. intros H. unfold get_graph. by rewrite H. Qed.

Lemma lookup_node_Some w r n :
  lookup_node w r = Some n <->
  exists g, graphs w !! fst r = Some g /\ nodes g !! snd r = Some n.
Proof.
  unfold lookup_node. split.
  - intros H. destruct (graphs w !! fst r) as [g|] eqn:E; simpl in H; [|done].
    by exists g.
  - intros (g & Hg & Hn). by rewrite Hg.
Qed.

Lemma get_node_ok w r n :
  lookup_node w r = Some n -> get_node r w = (Ok n, w).
Proof.
  intros (g & Hg & Hn)%lookup_node_Some.
  unfold get_node, bind. rewrite (get_graph_ok _ _ _ Hg). by rewrite Hn.
Qed.

Lemma insert_as_alter {A} (f : A -> A) (m : gmap Z A) i x :
  m !! i = Some x -> <[i := f x]> m = alter f i m.
Proof.
  intros H. apply map_eq. intros j. destruct (decide (i = j)) as [->|Hne].
  - by rewrite lookup_insert_eq, lookup_alter_eq, H.
  - by rewrite lookup_insert_ne, lookup_alter_ne.
Qed.

Lemma put_node_ok w r n0 n :
  lookup_node w r = Some n0 ->
  put_node r n w =
    (Ok tt,
     MkWorld
       (alter (fun g => mkGraph (<[snd r := n]> (nodes g)) (attachments g) (validate g)
                                (name_idx g))
              (fst r) (graphs w))
       (hooks w) (writes w)).
Proof.
  intros (g & Hg & Hn)%lookup_node_Some.
  unfold put_node, bind. rewrite (get_graph_ok _ _ _ Hg).
  unfold put_graph. f_equal. f_equal.
  by apply (insert_as_alter (fun g => mkGraph (<[snd r := n]> (nodes g)) (attachments g) (validate g) (name_idx g))).
Qed.

Lemma set_value_ok w r n v :
  lookup_node w r = Some n ->
  Node.set_value r v w = (Ok tt, store_node r (with_value n v) w).
Proof.
  intros H. unfold Node.set_value, bind. rewrite (get_node_ok _ _ _ H).
  by rewrite (put_node_ok w r n (with_value n v) H).
Qed.

Lemma lookup_store_node_eq w r n0 n :
  lookup_node w r = Some n0 -> lookup_node (store_node r n w) r = Some n.
Proof.
  intros (g & Hg & Hn)%lookup_node_Some.
  apply lookup_node_Some. eexists. split.
  - simpl. rewrite lookup_alter_eq, Hg. reflexivity.
  - simpl. by rewrite lookup_insert_eq.
Qed.

Lemma lookup_store_node_ne w r r' n :
  r' <> r -> lookup_node (store_node r n w) r' = lookup_node w r'.
Proof.
  intros Hne. unfold lookup_node, store_node. simpl.
  destruct (decide (fst r = fst r')) as [E|E].
  - rewrite <- E, lookup_alter_eq.
    destruct (graphs w !! fst r) as [g|]; simpl; [|done].
    apply lookup_insert_ne. intros E'. apply Hne.
    destruct r, r'; simpl in *; congruence.
  - by rewrite lookup_alter_ne.
Qed.

Lemma attachments_store_node w r n gid :
  graph_attachments (store_node r n w) gid = graph_attachments w gid.
Proof.
  unfold graph_attachments, store_node. simpl.
  destruct (decide (fst r = gid)) as [<-|E].
  - rewrite lookup_alter_eq. by destruct (graphs w !! fst r).
  - by rewrite lookup_alter_ne.
Qed.

Lemma attachments_get_ok w gid a key d :
  graph_attachments w gid = Some a ->
  attachments_get gid key d w = (Ok (default d (a !! key)), w).
Proof.
  unfold graph_attachments. intros H.
  destruct (graphs w !! gid) as [g|] eqn:Hg; simpl in H; [|done].
  injection H as <-. unfold attachments_get, bind.
  rewrite (get_graph_ok _ _ _ Hg). unfold ret. by destruct (attachments g !! key).
Qed.

Lemma attachments_getitem_missing w gid a key :
  graph_attachments w gid = Some a -> a !! key = None ->
  attachments_getitem gid key w = (Raise (KeyError (VStr key)), w).
Proof.
  unfold graph_attachments. intros H Hk.
  destruct (graphs w !! gid) as [g|] eqn:Hg; simpl in H; [|done].
  injection H as <-. unfold attachments_getitem, bind.
  rewrite (get_graph_ok _ _ _ Hg). by rewrite Hk.
Qed.

Lemma attachments_getitem_ok w gid a key v :
  graph_attachments w gid = Some a -> a !! key = Some v ->
  attachments_getitem gid key w = (Ok v, w).
Proof.
  unfold graph_attachments. intros H Hk.
  destruct (graphs w !! gid) as [g|] eqn:Hg; simpl in H; [|done].
  injection H as <-. unfold attachments_getitem, bind.
  rewrite (get_graph_ok _ _ _ Hg). by rewrite Hk.
Qed.

Lemma attachments_setitem_ok w gid a key v :
  graph_attachments w gid = Some a ->
  attachments_setitem gid key v w = (Ok tt, store_attachment gid key v w).
Proof.
  unfold graph_attachments. intros H.
  destruct (graphs w !! gid) as [g|] eqn:Hg; simpl in H; [|done].
  unfold attachments_setitem, bind. rewrite (get_graph_ok _ _ _ Hg).
  unfold put_graph, store_attachment. f_equal. f_equal.
  by apply (insert_as_alter (fun g => mkGraph (nodes g) (<[key := v]> (attachments g)) (validate g) (name_idx g))).
Qed.

Lemma lookup_store_attachment w gid key v r :
  lookup_node (store_attachment gid key v w) r = lookup_node w r.
Proof.
  unfold lookup_node, store_attachment. simpl.
  destruct (decide (gid = fst r)) as [->|E].
  - rewrite lookup_alter_eq. by destruct (graphs w !! fst r).
  - by rewrite lookup_alter_ne.
Qed.

Lemma attachments_store_attachment_eq w gid a key v :
  graph_attachments w gid = Some a ->
  graph_attachments (store_attachment gid key v w) gid = Some (<[key := v]> a).
Proof.
  unfold graph_attachments, store_attachment. simpl. intros H.
  rewrite lookup_alter_eq. destruct (graphs w !! gid); simpl in *; [|done].
  by injection H as <-.
Qed.

Lemma attachments_store_attachment_ne w gid gid' key v :
  gid' <> gid ->
  graph_attachments (store_attachment gid key v w) gid' = graph_attachments w gid'.
Proof.
  unfold graph_attachments, store_attachment. simpl. intros H.
  by rewrite lookup_alter_ne.
Qed.

Lemma add_listener_graph l r w gid g :
  graphs w !! gid = Some g ->
  exists g', graphs (add_listener l r w) !! gid = Some g' /\
             attachments g' = attachments g /\ validate g' = validate g /\
             name_idx g' = name_idx g.
Proof.
  intros Hg. unfold add_listener. simpl.
  destruct (decide (fst r = gid)) as [<-|E].
  - rewrite lookup_alter_eq, Hg. simpl. eauto.
  - rewrite lookup_alter_ne by done. eauto.
Qed.

Lemma add_listeners_graph l rs : forall w gid g,
  graphs w !! gid = Some g ->
  exists g', graphs (add_listeners l rs w) !! gid = Some g' /\
             attachments g' = attachments g /\ validate g' = validate g /\
             name_idx g' = name_idx g.
Proof.
  unfold add_listeners. induction rs as [|r rs IH]; intros w gid g Hg; simpl.
  - eauto.
  - destruct (add_listener_graph l r w gid g Hg) as (g1 & H1 & Ha & Hv & Hi).
    destruct (IH _ _ _ H1) as (g2 & H2 & Ha2 & Hv2 & Hi2).
    exists g2. repeat split; congruence.
Qed.

Lemma add_listeners_attachments l rs w gid :
  graph_attachments (add_listeners l rs w) gid = graph_attachments w gid.
Proof.
  unfold graph_attachments.
  destruct (graphs w !! gid) as [g|] eqn:Hg.
  - destruct (add_listeners_graph l rs w gid g Hg) as (g' & E1 & E2 & _).
    rewrite E1. simpl. by rewrite E2.
  - revert w Hg. unfold add_listeners.
    induction rs as [|r rs IH]; intros w Hg; simpl.
    + by rewrite Hg.
    + apply IH. unfold add_listener. simpl.
      destruct (decide (fst r = gid)) as [<-|E].
      * by rewrite lookup_alter_eq, Hg.
      * by rewrite lookup_alter_ne.
Qed.

Lemma add_listeners_hooks l rs : forall w, hooks (add_listeners l rs w) = hooks w.
Proof.
  unfold add_listeners. induction rs as [|r rs IH]; intros w; simpl; [done|].
  by rewrite IH.
Qed.

(** What [Graph.create] does in a graph that is in the store. *)
Lemma create_spec w gid g target pv args kwargs :
  graphs w !! gid = Some g ->
  let name := target +:+ "_" +:+ pretty (default 0%nat (name_idx g !! target)) in
  exists w',
    Graph.create gid target pv args kwargs w = (Ok (gid, name), w') /\
    lookup_node w' (gid, name) = Some (mkNode target args kwargs pv VEmpty []) /\
    hooks w' = hooks w /\
    forall gid', graph_attachments w' gid' = graph_attachments w gid'.
Proof.
  intros Hg name. unfold Graph.create, bind. rewrite (get_graph_ok _ _ _ Hg).
  set (rs := (node_refs args ++ node_refs (map snd kwargs))%list).
  fold name.
  destruct (add_listeners_graph (gid, name) rs w gid g Hg) as (g' & Hg' & Ha & Hv & Hi).
  rewrite (get_graph_ok _ _ _ Hg'). unfold put_graph, ret.
  eexists. split; [reflexivity|]. split; [|split].
  - apply lookup_node_Some. eexists. simpl. split.
    + by rewrite lookup_insert_eq.
    + simpl. by rewrite lookup_insert_eq.
  - simpl. apply add_listeners_hooks.
  - intros gid'. unfold graph_attachments at 1. simpl.
    destruct (decide (gid = gid')) as [<-|E].
    + rewrite lookup_insert_eq. simpl. rewrite Ha.
      unfold graph_attachments. by rewrite Hg.
    + rewrite lookup_insert_ne by done.
      apply (add_listeners_attachments (gid, name) rs w gid').
Qed.

(** A node created without node arguments leaves every other node as it is. *)
Lemma create_plain_frame w gid g target pv args kwargs r :
  graphs w !! gid = Some g ->
  (node_refs args ++ node_refs (map snd kwargs))%list = [] ->
  r <> (gid, target +:+ "_" +:+ pretty (default 0%nat (name_idx g !! target))) ->
  lookup_node (snd (Graph.create gid target pv args kwargs w)) r = lookup_node w r.
Proof.
  intros Hg Hrs Hne. unfold Graph.create, bind. rewrite (get_graph_ok _ _ _ Hg).
  rewrite Hrs. unfold add_listeners. simpl. rewrite (get_graph_ok _ _ _ Hg).
  unfold put_graph, ret. simpl. unfold lookup_node. simpl.
  destruct (decide (gid = fst r)) as [E|E].
  - rewrite <- E, lookup_insert_eq, Hg. simpl.
    apply lookup_insert_ne. intros E'. apply Hne. destruct r; simpl in *; congruence.
  - by rewrite lookup_insert_ne.
Qed.

Lemma lookup_store_node w r r' n0 n :
  lookup_node w r = Some n0 ->
  lookup_node (store_node r n w) r' = if decide (r' = r) then Some n else lookup_node w r'.
Proof.
  intros H. case_decide as E.
  - subst r'. by apply lookup_store_node_eq with n0.
  - by apply lookup_store_node_ne.
Qed.

Lemma getitem_ok (l : list Value) i v (w : World) :
  nth_error l i = Some v -> getitem l i w = (Ok v, w).
Proof. intros H. unfold getitem. by rewrite H. Qed.

(** *** Swap *)

Lemma swap_execute_none w node a :
  graph_attachments w (fst node) = Some a ->
  default VNone (a !! "nnsight_swap") = VNone ->
  SwapProtocol.execute node w =
    (Ok tt, store_attachment (fst node) "nnsight_swap" (VNode (fst node) (snd node)) w).
Proof.
  intros Ha Hd. unfold SwapProtocol.execute, bind.
  rewrite (attachments_get_ok _ _ _ _ _ Ha).
  unfold SwapProtocol.attachment_name. rewrite Hd. unfold ret.
  by apply attachments_setitem_ok with a.
Qed.

Lemma swap_execute_active w node a sgid sname s :
  graph_attachments w (fst node) = Some a ->
  a !! "nnsight_swap" = Some (VNode sgid sname) ->
  lookup_node w (sgid, sname) = Some s ->
  SwapProtocol.execute node w =
    (Ok tt, store_attachment (fst node) "nnsight_swap" (VNode (fst node) (snd node))
              (store_node (sgid, sname) (with_value s (VBool false)) w)).
Proof.
  intros Ha Hk Hs. unfold SwapProtocol.execute, bind.
  rewrite (attachments_get_ok _ _ _ _ _ Ha).
  unfold SwapProtocol.attachment_name. rewrite Hk. simpl.
  rewrite (set_value_ok _ _ _ _ Hs).
  apply attachments_setitem_ok with a. by rewrite attachments_store_node.
Qed.

(** Executing a swap node in a graph whose swap attachment is usable. *)
Lemma swap_execute_ready w node :
  swap_ready w (fst node) ->
  exists a w1,
    graph_attachments w (fst node) = Some a /\
    SwapProtocol.execute node w = (Ok tt, w1) /\
    graph_attachments w1 (fst node) =
      Some (<["nnsight_swap" := VNode (fst node) (snd node)]> a) /\
    (forall r m, lookup_node w r = Some m ->
                 exists m', lookup_node w1 r = Some m' /\ node_args m' = node_args m) /\
    (forall sgid sname, a !! "nnsight_swap" = Some (VNode sgid sname) ->
                        node_value <$> lookup_node w1 (sgid, sname) = Some (VBool false)).
Proof.
  intros (a & Ha & Hwf). exists a.
  destruct (a !! "nnsight_swap") as [v|] eqn:Hk.
  2:{ eexists. split; [done|]. split.
      { apply swap_execute_none with a; [done|]. by rewrite Hk. }
      split; [by apply attachments_store_attachment_eq|]. split; [|done].
      intros r m Hm. exists m. by rewrite lookup_store_attachment. }
  destruct v; try done.
  - eexists. split; [done|]. split.
    { apply swap_execute_none with a; [done|]. by rewrite Hk. }
    split; [by apply attachments_store_attachment_eq|]. split; [|done].
    intros r m Hm. exists m. by rewrite lookup_store_attachment.
  - destruct Hwf as (s & stored & Hs & _).
    eexists. split; [done|]. split.
    { exact (swap_execute_active w node a gid name s Ha Hk Hs). }
    split.
    { apply attachments_store_attachment_eq. by rewrite attachments_store_node. }
    split.
    + intros r m Hm. rewrite lookup_store_attachment.
      rewrite (lookup_store_node _ _ _ _ _ Hs). case_decide as E.
      * subst r. rewrite Hs in Hm. injection Hm as <-. by eexists.
      * by exists m.
    + intros sgid sname [= <- <-]. rewrite lookup_store_attachment.
      by rewrite (lookup_store_node_eq _ _ _ (with_value s (VBool false)) Hs).
Qed.

Lemma get_swap_none w gid a v :
  graph_attachments w gid = Some a ->
  default VNone (a !! "nnsight_swap") = VNone ->
  SwapProtocol.get_swap gid v w = (Ok v, w).
Proof.
  intros Ha Hd. unfold SwapProtocol.get_swap, bind.
  rewrite (attachments_get_ok _ _ _ _ _ Ha).
  unfold SwapProtocol.attachment_name. by rewrite Hd.
Qed.

Lemma get_swap_active w gid a v sgid sname s stored :
  graph_attachments w gid = Some a ->
  a !! "nnsight_swap" = Some (VNode sgid sname) ->
  lookup_node w (sgid, sname) = Some s ->
  nth_error (node_args s) 1 = Some stored ->
  SwapProtocol.get_swap gid v w =
    (Ok (SwapProtocol.relocate (SwapProtocol.recorded_device v)
           (util.apply stored (value_of w) is_node)),
     store_attachment gid "nnsight_swap" VNone
       (store_node (sgid, sname) (with_value s (VBool true)) w)).
Proof.
  intros Ha Hk Hs Hst. unfold SwapProtocol.get_swap, bind.
  rewrite (attachments_get_ok _ _ _ _ _ Ha).
  unfold SwapProtocol.attachment_name. rewrite Hk. simpl.
  rewrite (get_node_ok _ _ _ Hs), (getitem_ok _ _ _ _ Hst).
  rewrite (set_value_ok _ _ _ _ Hs).
  erewrite attachments_setitem_ok; [reflexivity|].
  rewrite attachments_store_node. exact Ha.
Qed.

(** With a usable swap attachment a consultation never raises. *)
Lemma get_swap_ready w gid v :
  swap_ready w gid -> exists r w', SwapProtocol.get_swap gid v w = (Ok r, w').
Proof.
  intros (a & Ha & Hwf).
  destruct (a !! "nnsight_swap") as [x|] eqn:Hk.
  2:{ eexists _, _. apply get_swap_none with a; [done|]. by rewrite Hk. }
  destruct x; try done.
  - eexists _, _. apply get_swap_none with a; [done|]. by rewrite Hk.
  - destruct Hwf as (s & stored & Hs & Hst).
    eexists _, _. exact (get_swap_active w gid a v gid0 name s stored Ha Hk Hs Hst).
Qed.

(** *** Apply-Submodule *)

Lemma prepare_inputs_ok w node n :
  lookup_node w node = Some n ->
  Node.prepare_inputs node w =
    (Ok (map (fun x => util.apply x (value_of w) is_node) (node_args n),
         map (fun kv => (fst kv, util.apply (snd kv) (value_of w) is_node)) (node_kwargs n)),
     w).
Proof.
  intros H. unfold Node.prepare_inputs, bind. by rewrite (get_node_ok _ _ _ H).
Qed.

(** Reading an attachment never writes. *)
Lemma attachments_getitem_pure gid key w : snd (attachments_getitem gid key w) = w.
Proof.
  unfold attachments_getitem, bind, get_graph.
  destruct (graphs w !! gid) as [g|]; [|done].
  by destruct (attachments g !! key).
Qed.

Lemma call_module_pure forward gid path args kwargs w :
  snd (ApplyModuleProtocol.call_module forward gid path args kwargs w) = w.
Proof.
  unfold ApplyModuleProtocol.call_module, ApplyModuleProtocol.get_module, bind.
  pose proof (attachments_getitem_pure gid ApplyModuleProtocol.attachment_name w) as Hp.
  destruct (attachments_getitem gid ApplyModuleProtocol.attachment_name w) as [[root|e] w1];
    simpl in Hp; subst w1; [|done].
  unfold lift. destruct (fetch_attr root path) as [m|e]; [|done].
  by destruct m.
Qed.

Lemma device_of_root_pure gid w :
  snd (ApplyModuleProtocol.device_of_root gid w) = w.
Proof.
  unfold ApplyModuleProtocol.device_of_root, ApplyModuleProtocol.get_module, bind.
  pose proof (attachments_getitem_pure gid ApplyModuleProtocol.attachment_name w) as Hp.
  destruct (attachments_getitem gid ApplyModuleProtocol.attachment_name w) as [[root|e] w1];
    simpl in Hp; subst w1; [|done].
  destruct root as [| | | | | | | |fwd ps attrs|]; try done.
  destruct ps as [|p ps]; [done|]. by destruct p.
Qed.

Lemma call_module_ok forward w gid a root path fwd ps attrs args kwargs :
  graph_attachments w gid = Some a ->
  a !! "nnsight_root_module" = Some root ->
  fetch_attr root path = Ok (VModule fwd ps attrs) ->
  ApplyModuleProtocol.call_module forward gid path args kwargs w =
    (forward fwd args kwargs, w).
Proof.
  intros Ha Hk Hf.
  unfold ApplyModuleProtocol.call_module, ApplyModuleProtocol.get_module,
    ApplyModuleProtocol.attachment_name, bind.
  rewrite (attachments_getitem_ok _ _ _ _ _ Ha Hk).
  unfold lift. rewrite Hf. by destruct (forward fwd args kwargs).
Qed.

(** *** Bridge *)

Lemma add_listener_keeps l r0 w r :
  is_Some (lookup_node w r) -> is_Some (lookup_node (add_listener l r0 w) r).
Proof.
  intros [n Hn]. apply lookup_node_Some in Hn as (g & Hg & Hn).
  unfold lookup_node, add_listener. simpl.
  destruct (decide (fst r0 = fst r)) as [E|E].
  - rewrite E, lookup_alter_eq, Hg. simpl.
    destruct (decide (snd r0 = snd r)) as [E'|E'].
    + rewrite E', lookup_alter_eq, Hn. by eexists.
    + rewrite lookup_alter_ne by done. by eexists.
  - rewrite lookup_alter_ne by done. rewrite Hg. simpl. by eexists.
Qed.

Lemma add_listeners_keeps l rs : forall w r,
  is_Some (lookup_node w r) -> is_Some (lookup_node (add_listeners l rs w) r).
Proof.
  unfold add_listeners. induction rs as [|r0 rs IH]; intros w r H; simpl; [done|].
  apply IH. by apply add_listener_keeps.
Qed.

(** [Graph.create] removes no node. *)
Lemma create_keeps_nodes w gid g target pv args kwargs r :
  graphs w !! gid = Some g ->
  is_Some (lookup_node w r) ->
  is_Some (lookup_node (snd (Graph.create gid target pv args kwargs w)) r).
Proof.
  intros Hg Hr. unfold Graph.create, bind. rewrite (get_graph_ok _ _ _ Hg).
  set (name := target +:+ "_" +:+ pretty (default 0%nat (name_idx g !! target))).
  set (rs := (node_refs args ++ node_refs (map snd kwargs))%list).
  destruct (add_listeners_graph (gid, name) rs w gid g Hg) as (g' & Hg' & _).
  rewrite (get_graph_ok _ _ _ Hg'). unfold put_graph, ret. simpl.
  pose proof (add_listeners_keeps (gid, name) rs w r Hr) as [n Hn].
  apply lookup_node_Some in Hn as (g2 & Hg2 & Hn).
  unfold lookup_node. simpl.
  destruct (decide (gid = fst r)) as [E|E].
  - rewrite <- E, lookup_insert_eq. simpl.
    rewrite <- E, Hg' in Hg2. injection Hg2 as <-.
    destruct (decide (name = snd r)) as [E'|E'].
    + rewrite <- E', lookup_insert_eq. by eexists.
    + rewrite lookup_insert_ne by done. by eexists.
  - rewrite lookup_insert_ne by done. rewrite Hg2. simpl. by eexists.
Qed.

Lemma get_bridge_ok w gid a bridge :
  graph_attachments w gid = Some a ->
  a !! "nnsight_bridge" = Some bridge ->
  BridgeProtocol.get_bridge gid w = (Ok bridge, w).
Proof.
  intros Ha Hk. unfold BridgeProtocol.get_bridge, BridgeProtocol.has_bridge, bind.
  pose proof Ha as Ha'. unfold graph_attachments in Ha'.
  destruct (graphs w !! gid) as [g|] eqn:Hg; simpl in Ha'; [|done].
  rewrite (get_graph_ok _ _ _ Hg). unfold ret.
  destruct (negb _); by apply attachments_getitem_ok with a.
Qed.

(** *** Grad *)

Lemma bind_assoc {A B C} (m : M A) (f : A -> M B) (g : B -> M C) w :
  bind (bind m f) g w = bind m (fun x => bind (f x) g) w.
Proof. unfold bind. by destruct (m w) as [[x|e] w']. Qed.

Lemma keeps_hooks_ret {A} (x : A) : keeps_hooks (ret x).
Proof. by intros w. Qed.

Lemma keeps_hooks_raise {A} e : keeps_hooks (@raise A e).
Proof. by intros w. Qed.

Lemma keeps_hooks_bind {A B} (m : M A) (k : A -> M B) :
  keeps_hooks m -> (forall x, keeps_hooks (k x)) -> keeps_hooks (bind m k).
Proof.
  intros Hm Hk w. unfold bind. specialize (Hm w).
  destruct (m w) as [[x|e] w']; simpl in *; [|done].
  by rewrite Hk.
Qed.

Lemma keeps_hooks_get_graph gid : keeps_hooks (get_graph gid).
Proof. intros w. unfold get_graph. by destruct (graphs w !! gid). Qed.

Lemma keeps_hooks_put_graph gid g : keeps_hooks (put_graph gid g).
Proof. by intros w. Qed.

Lemma keeps_hooks_get_node r : keeps_hooks (get_node r).
Proof.
  apply keeps_hooks_bind; [apply keeps_hooks_get_graph|].
  intros g. destruct (nodes g !! snd r); [apply keeps_hooks_ret|apply keeps_hooks_raise].
Qed.

Lemma keeps_hooks_set_value r v : keeps_hooks (Node.set_value r v).
Proof.
  apply keeps_hooks_bind; [apply keeps_hooks_get_node|]. intros n.
  apply keeps_hooks_bind; [|by intros _ w].
  apply keeps_hooks_bind; [apply keeps_hooks_get_graph|]. intros g.
  apply keeps_hooks_put_graph.
Qed.

Lemma keeps_hooks_attachments_get gid key d : keeps_hooks (attachments_get gid key d).
Proof.
  apply keeps_hooks_bind; [apply keeps_hooks_get_graph|]. intros g. apply keeps_hooks_ret.
Qed.

Lemma keeps_hooks_attachments_setitem gid key v : keeps_hooks (attachments_setitem gid key v).
Proof.
  apply keeps_hooks_bind; [apply keeps_hooks_get_graph|]. intros g.
  apply keeps_hooks_put_graph.
Qed.

Lemma keeps_hooks_get_swap gid v : keeps_hooks (SwapProtocol.get_swap gid v).
Proof.
  apply keeps_hooks_bind; [apply keeps_hooks_attachments_get|]. intros swap.
  destruct swap; try apply keeps_hooks_raise; [apply keeps_hooks_ret|].
  apply keeps_hooks_bind; [apply keeps_hooks_get_node|]. intros s.
  apply keeps_hooks_bind.
  { unfold getitem. destruct (nth_error _ _); [apply keeps_hooks_ret|apply keeps_hooks_raise]. }
  intros stored. apply keeps_hooks_bind; [by intros w|]. intros x.
  apply keeps_hooks_bind; [apply keeps_hooks_set_value|]. intros _.
  apply keeps_hooks_bind; [apply keeps_hooks_attachments_setitem|]. intros _.
  apply keeps_hooks_ret.
Qed.

Lemma keeps_hooks_attached r : keeps_hooks (Node.attached r).
Proof.
  apply keeps_hooks_bind; [apply keeps_hooks_get_node|]. intros n. apply keeps_hooks_ret.
Qed.

Lemma get_hook_ok w h e : hooks w !! h = Some e -> get_hook h w = (Ok e, w).
Proof. intros H. unfold get_hook. by rewrite H. Qed.

Lemma lookup_node_graphs w w' r : graphs w' = graphs w -> lookup_node w' r = lookup_node w r.
Proof. intros H. unfold lookup_node. by rewrite H. Qed.

(** The COUNTING branch of the closure. *)
Lemma grad_counting w h e v :
  hooks w !! h = Some e ->
  hook_backward_idx e <> 0 ->
  GradProtocol.grad h v w =
    (Ok VNone,
     store_hook h (mkHook (hook_tensor e) (hook_node e) (hook_backward_idx e - 1)
                          (hook_registered e)) w).
Proof.
  intros He Hi. unfold GradProtocol.grad, bind. rewrite (get_hook_ok _ _ _ He).
  destruct (Z.eqb_spec (hook_backward_idx e) 0) as [E|_]; [done|].
  unfold set_backward_idx, bind. by rewrite (get_hook_ok _ _ _ He).
Qed.

Lemma keeps_hooks_capture_consult node v : keeps_hooks (capture_consult node v).
Proof.
  apply keeps_hooks_bind; [apply keeps_hooks_set_value|]. intros _.
  apply keeps_hooks_bind; [apply keeps_hooks_attached|]. intros [|];
    [apply keeps_hooks_get_swap|apply keeps_hooks_ret].
Qed.

(** The CAPTURE branch of the closure. *)
Lemma grad_capture w h e v :
  hooks w !! h = Some e ->
  hook_backward_idx e = 0 ->
  GradProtocol.grad h v w =
    match capture_consult (hook_node e) v w with
    | (Ok r, w2) => (Ok r, store_hook h (mkHook (hook_tensor e) (hook_node e) (-1) false) w2)
    | (Raise x, w2) => (Raise x, w2)
    end.
Proof.
  intros He Hi. unfold GradProtocol.grad.
  unfold bind at 1. rewrite (get_hook_ok _ _ _ He), Hi. simpl.
  pose proof (keeps_hooks_capture_consult (hook_node e) v w) as Hk.
  unfold capture_consult in *. unfold bind in *.
  destruct (Node.set_value (hook_node e) v w) as [[[]|x] w1]; [|done].
  destruct (Node.attached (hook_node e) w1) as [[att|x] w1']; [|done].
  destruct ((if att then SwapProtocol.get_swap (fst (hook_node e)) v else ret v) w1')
    as [[r|x] w2]; [|done].
  simpl in Hk.
  assert (He2 : hooks w2 !! h = Some e) by (by rewrite Hk).
  unfold set_backward_idx, hook_remove, bind.
  rewrite (get_hook_ok _ _ _ He2). unfold put_hook, get_hook. simpl.
  rewrite list_lookup_insert_eq by (by apply lookup_lt_Some with e).
  simpl. unfold ret, store_hook. by rewrite list_insert_insert_eq.
Qed.

Lemma occurrence_counting w h e v :
  hooks w !! h = Some e ->
  hook_registered e = true ->
  hook_backward_idx e <> 0 ->
  occurrence h v w =
    (Ok VNone,
     store_hook h (mkHook (hook_tensor e) (hook_node e) (hook_backward_idx e - 1) true) w).
Proof.
  intros He Hr Hi. unfold occurrence, bind. rewrite (get_hook_ok _ _ _ He), Hr.
  rewrite (grad_counting _ _ _ _ He Hi). by rewrite Hr.
Qed.

(** As long as the counter has not reached 0, every occurrence decrements it
    and returns no replacement; the graphs are not touched. *)
Lemma occurrences_counting h vs : forall w e,
  hooks w !! h = Some e ->
  hook_registered e = true ->
  Z.of_nat (length vs) <= hook_backward_idx e ->
  exists w',
    occurrences h vs w = (Ok (map (fun _ => VNone) vs), w') /\
    graphs w' = graphs w /\
    hooks w' = <[h := mkHook (hook_tensor e) (hook_node e)
                             (hook_backward_idx e - Z.of_nat (length vs)) true]> (hooks w).
Proof.
  induction vs as [|v vs IH]; intros w e He Hr Hlen.
  - exists w. split; [done|]. split; [done|]. simpl.
    rewrite Z.sub_0_r. symmetry. apply list_insert_id.
    rewrite He. f_equal. destruct e; simpl in *; by subst.
  - simpl length in Hlen. simpl. unfold bind.
    rewrite (occurrence_counting _ _ _ _ He Hr) by lia.
    set (e1 := mkHook (hook_tensor e) (hook_node e) (hook_backward_idx e - 1) true).
    destruct (IH (store_hook h e1 w) e1) as (w' & Ho & Hg & Hh).
    { simpl. apply list_lookup_insert_eq. by apply lookup_lt_Some with e. }
    { done. }
    { simpl. lia. }
    rewrite Ho. exists w'. split; [done|]. split; [done|].
    rewrite Hh. simpl. rewrite list_insert_insert_eq. do 2 f_equal.
    simpl length. lia.
Qed.

(** Once the callback is unregistered the traversal no longer reaches it. *)
Lemma occurrences_unregistered h vs : forall w e,
  hooks w !! h = Some e ->
  hook_registered e = false ->
  occurrences h vs w = (Ok (map (fun _ => VNone) vs), w).
Proof.
  induction vs as [|v vs IH]; intros w e He Hr; [done|].
  simpl. unfold bind. unfold occurrence at 1. unfold bind.
  rewrite (get_hook_ok _ _ _ He), Hr. unfold ret at 1.
  by rewrite (IH w e He Hr).
Qed.

(** Called with a negative counter, the closure only decrements it. *)
Lemma calls_negative h vs : forall w e,
  hooks w !! h = Some e ->
  hook_backward_idx e < 0 ->
  exists w',
    calls h vs w = (Ok (map (fun _ => VNone) vs), w') /\
    graphs w' = graphs w /\
    hooks w' = <[h := mkHook (hook_tensor e) (hook_node e)
                             (hook_backward_idx e - Z.of_nat (length vs))
                             (hook_registered e)]> (hooks w).
Proof.
  induction vs as [|v vs IH]; intros w e He Hneg.
  - exists w. split; [done|]. split; [done|]. simpl.
    rewrite Z.sub_0_r. symmetry. apply list_insert_id.
    rewrite He. f_equal. by destruct e.
  - simpl. unfold bind. rewrite (grad_counting _ _ _ _ He) by lia.
    set (e1 := mkHook (hook_tensor e) (hook_node e) (hook_backward_idx e - 1)
                      (hook_registered e)).
    destruct (IH (store_hook h e1 w) e1) as (w' & Ho & Hg & Hh).
    { simpl. apply list_lookup_insert_eq. by apply lookup_lt_Some with e. }
    { simpl. lia. }
    rewrite Ho. exists w'. split; [done|]. split; [done|].
    rewrite Hh. simpl. rewrite list_insert_insert_eq. do 2 f_equal.
    simpl length. lia.
Qed.

Lemma swap_ready_graphs w w' gid :
  graphs w' = graphs w -> swap_ready w gid -> swap_ready w' gid.
Proof.
  intros Hg (a & Ha & Hwf). exists a. split.
  - unfold graph_attachments. by rewrite Hg.
  - destruct (a !! "nnsight_swap") as [[]|]; try done.
    destruct Hwf as (s & stored & Hs & Hst). exists s, stored.
    by rewrite (lookup_node_graphs w w' _ Hg).
Qed.

Lemma swap_ready_store_value w gid r n v :
  lookup_node w r = Some n ->
  swap_ready w gid -> swap_ready (store_node r (with_value n v) w) gid.
Proof.
  intros Hn (a & Ha & Hwf). exists a. split.
  - by rewrite attachments_store_node.
  - destruct (a !! "nnsight_swap") as [[]|]; try done.
    destruct Hwf as (s & stored & Hs & Hst).
    rewrite (lookup_store_node _ _ _ _ _ Hn). case_decide as E.
    + rewrite <- E, Hs in Hn. injection Hn as <-. by exists (with_value s v), stored.
    + by exists s, stored.
Qed.

Lemma occurrences_app h vs : forall w rs w' vs',
  occurrences h vs w = (Ok rs, w') ->
  occurrences h (vs ++ vs') w =
    match occurrences h vs' w' with
    | (Ok rs', w'') => (Ok (rs ++ rs'), w'')
    | (Raise x, w'') => (Raise x, w'')
    end.
Proof.
  induction vs as [|v vs IH]; intros w rs w' vs' H.
  - simpl in H. injection H as <- <-. simpl.
    by destruct (occurrences h vs' w) as [[rs'|x] w''].
  - simpl in *. unfold bind in *.
    destruct (occurrence h v w) as [[r|x] w1]; [|done].
    destruct (occurrences h vs w1) as [[rs1|x] w2] eqn:E; [|done].
    injection H as <- <-. rewrite (IH w1 rs1 w2 vs' E).
    by destruct (occurrences h vs' w2) as [[rs'|x] w''].
Qed.

(** *** What creating a node leaves alone *)

Lemma same_core_refl n : same_core n n.
Proof. by repeat split. Qed.

Lemma same_core_trans n1 n2 n3 : same_core n1 n2 -> same_core n2 n3 -> same_core n1 n3.
Proof.
  intros (?&?&?&?&?) (?&?&?&?&?). repeat split; congruence.
Qed.

Lemma add_listener_core l r0 w r n :
  lookup_node w r = Some n ->
  exists n', lookup_node (add_listener l r0 w) r = Some n' /\ same_core n n' /\
             node_listeners n' = if decide (r = r0) then node_listeners n ++ [l]
                                 else node_listeners n.
Proof.
  intros (g & Hg & Hn)%lookup_node_Some.
  unfold lookup_node, add_listener. simpl.
  destruct (decide (fst r0 = fst r)) as [E|E].
  - rewrite E, lookup_alter_eq, Hg. simpl.
    destruct (decide (snd r0 = snd r)) as [E'|E'].
    + rewrite E', lookup_alter_eq, Hn. simpl. eexists. split; [done|].
      split; [by repeat split|].
      rewrite decide_True; [done|]. destruct r, r0; simpl in *; congruence.
    + rewrite lookup_alter_ne by done. rewrite Hn. eexists. split; [done|].
      split; [apply same_core_refl|].
      rewrite decide_False; [done|]. intros ->. done.
  - rewrite lookup_alter_ne by done. rewrite Hg. simpl. rewrite Hn.
    eexists. split; [done|]. split; [apply same_core_refl|].
    rewrite decide_False; [done|]. intros ->. done.
Qed.

Lemma add_listeners_core l rs : forall w r n,
  lookup_node w r = Some n ->
  exists n', lookup_node (add_listeners l rs w) r = Some n' /\ same_core n n'.
Proof.
  unfold add_listeners. induction rs as [|r0 rs IH]; intros w r n Hn; simpl.
  - exists n. split; [done|apply same_core_refl].
  - destruct (add_listener_core l r0 w r n Hn) as (n1 & H1 & Hc1 & _).
    destruct (IH _ _ _ H1) as (n2 & H2 & Hc2).
    exists n2. split; [done|]. by apply same_core_trans with n1.
Qed.

(** Creating a node changes, of any other node, the listeners at most. *)
Lemma create_frame w gid g target pv args kwargs r n :
  graphs w !! gid = Some g ->
  r <> (gid, next_name g target) ->
  lookup_node w r = Some n ->
  exists n', lookup_node (snd (Graph.create gid target pv args kwargs w)) r = Some n' /\
             same_core n n'.
Proof.
  intros Hg Hne Hn. unfold Graph.create, bind. rewrite (get_graph_ok _ _ _ Hg).
  fold (next_name g target).
  set (rs := node_refs args ++ node_refs (map snd kwargs)).
  destruct (add_listeners_graph (gid, next_name g target) rs w gid g Hg) as (g' & Hg' & _).
  rewrite (get_graph_ok _ _ _ Hg'). unfold put_graph, ret. simpl.
  destruct (add_listeners_core (gid, next_name g target) rs w r n Hn) as (n' & Hn' & Hc).
  exists n'. split; [|exact Hc].
  apply lookup_node_Some in Hn' as (g2 & Hg2 & Hn').
  unfold lookup_node. simpl.
  destruct (decide (gid = fst r)) as [E|E].
  - rewrite <- E, lookup_insert_eq. simpl.
    rewrite <- E, Hg' in Hg2. injection Hg2 as <-.
    rewrite lookup_insert_ne; [done|].
    intros E'. apply Hne. destruct r; simpl in *; congruence.
  - rewrite lookup_insert_ne by done. by rewrite Hg2.
Qed.

Lemma add_listeners_nonempty l rs : forall w r n,
  lookup_node w r = Some n ->
  node_listeners n <> [] ->
  exists n', lookup_node (add_listeners l rs w) r = Some n' /\ same_core n n' /\
             node_listeners n' <> [].
Proof.
  unfold add_listeners. induction rs as [|r0 rs IH]; intros w r n Hn Hl; simpl.
  - exists n. split; [done|]. split; [apply same_core_refl|done].
  - destruct (add_listener_core l r0 w r n Hn) as (n1 & H1 & Hc1 & Hl1).
    destruct (IH _ _ n1 H1) as (n2 & H2 & Hc2 & Hl2).
    { rewrite Hl1. case_decide; [|done]. by destruct (node_listeners n). }
    exists n2. split; [done|]. split; [by apply same_core_trans with n1|done].
Qed.

(** A node created with a node as its first argument is attached to it. *)
Lemma create_attaches w gid g target pv (node : NodeRef) rest kwargs n :
  graphs w !! gid = Some g ->
  node <> (gid, next_name g target) ->
  lookup_node w node = Some n ->
  exists n',
    lookup_node
      (snd (Graph.create gid target pv (VNode (fst node) (snd node) :: rest) kwargs w))
      node = Some n' /\
    same_core n n' /\ has_listener n' = true.
Proof.
  intros Hg Hne Hn. unfold Graph.create, bind. rewrite (get_graph_ok _ _ _ Hg).
  fold (next_name g target).
  set (l := (gid, next_name g target)).
  assert (Hrs : exists rs, node_refs (VNode (fst node) (snd node) :: rest) ++
                           node_refs (map snd kwargs) = node :: rs).
  { eexists. unfold node_refs. simpl. by destruct node. }
  destruct Hrs as (rs & ->). unfold add_listeners. cbn [fold_left].
  destruct (add_listener_core l node w node n Hn) as (n1 & Hn1 & Hc1 & Hl1).
  rewrite decide_True in Hl1 by done.
  destruct (add_listeners_nonempty l rs (add_listener l node w) node n1 Hn1)
    as (n2 & Hn2 & Hc2 & Hl2).
  { rewrite Hl1. by destruct (node_listeners n). }
  unfold add_listeners in Hn2.
  set (w1 := fold_left (fun w r => add_listener l r w) rs (add_listener l node w)) in *.
  assert (Hg1 : exists g1, graphs w1 !! gid = Some g1).
  { destruct (add_listeners_graph l (node :: rs) w gid g Hg) as (g1 & Hg1 & _).
    by exists g1. }
  destruct Hg1 as (g1 & Hg1).
  rewrite (get_graph_ok _ _ _ Hg1). unfold put_graph, ret. cbn [snd].
  exists n2. split; [|split; [by apply same_core_trans with n1|]].
  - apply lookup_node_Some in Hn2 as (g2 & Hg2 & Hn2).
    unfold lookup_node. cbn [graphs].
    destruct (decide (gid = fst node)) as [E|E].
    + rewrite <- E, lookup_insert_eq. cbn [mbind option_bind nodes].
      rewrite <- E, Hg1 in Hg2. injection Hg2 as <-.
      rewrite lookup_insert_ne; [done|].
      intros E'. apply Hne. unfold l. destruct node; simpl in *; congruence.
    + rewrite lookup_insert_ne by done. by rewrite Hg2.
  - unfold has_listener. by destruct (node_listeners n2).
Qed.

Lemma create_result w gid g target pv args kwargs :
  graphs w !! gid = Some g ->
  fst (Graph.create gid target pv args kwargs w) = Ok (gid, next_name g target).
Proof.
  intros Hg.
  destruct (create_spec w gid g target pv args kwargs Hg) as (w' & Hc & _).
  by rewrite Hc.
Qed.

(** *** Attachments *)

Lemma increment_ok w gid a i :
  graph_attachments w gid = Some a ->
  default (VInt 0) (a !! "nnsight_backward_idx") = VInt i ->
  GradProtocol.increment gid w =
    (Ok tt, store_attachment gid "nnsight_backward_idx" (VInt (i + 1)) w).
Proof.
  intros Ha Hi. unfold GradProtocol.increment, bind.
  rewrite (attachments_get_ok _ _ _ _ _ Ha).
  unfold GradProtocol.attachment_name. rewrite Hi.
  by apply attachments_setitem_ok with a.
Qed.

Lemma increments_spec k : forall w gid a i,
  graph_attachments w gid = Some a ->
  default (VInt 0) (a !! "nnsight_backward_idx") = VInt i ->
  exists w1 a1,
    increments k gid w = (Ok tt, w1) /\
    graph_attachments w1 gid = Some a1 /\
    default (VInt 0) (a1 !! "nnsight_backward_idx") = VInt (i + Z.of_nat k) /\
    (forall key, key <> "nnsight_backward_idx" -> a1 !! key = a !! key) /\
    (forall r, lookup_node w1 r = lookup_node w r) /\
    hooks w1 = hooks w.
Proof.
  induction k as [|k IH]; intros w gid a i Ha Hi.
  - exists w, a. rewrite Z.add_0_r. by repeat split.
  - simpl increments. unfold bind. rewrite (increment_ok _ _ _ _ Ha Hi).
    set (w0 := store_attachment gid "nnsight_backward_idx" (VInt (i + 1)) w).
    destruct (IH w0 gid (<["nnsight_backward_idx" := VInt (i + 1)]> a) (i + 1))
      as (w1 & a1 & Hk & Ha1 & Hd & Hother & Hnodes & Hhooks).
    { by apply attachments_store_attachment_eq. }
    { by rewrite lookup_insert_eq. }
    exists w1, a1. split; [exact Hk|]. split; [exact Ha1|]. split.
    { rewrite Hd. f_equal. lia. }
    split.
    { intros key Hkey. rewrite (Hother key Hkey). by rewrite lookup_insert_ne. }
    split.
    { intros r. rewrite Hnodes. apply lookup_store_attachment. }
    exact Hhooks.
Qed.

(** *** Reading and failing without writing *)

Lemma reads_only_ret {A} (x : A) : reads_only (ret x).
Proof. by intros w. Qed.

Lemma reads_only_raise {A} e : reads_only (@raise A e).
Proof. by intros w. Qed.

Lemma reads_only_lift {A} (r : Res A) : reads_only (lift r).
Proof. by intros w. Qed.

Lemma reads_only_bind {A B} (m : M A) (k : A -> M B) :
  reads_only m -> (forall x, reads_only (k x)) -> reads_only (bind m k).
Proof.
  intros Hm Hk w. unfold bind. specialize (Hm w).
  destruct (m w) as [[x|e] w']; simpl in *; subst; [apply Hk|done].
Qed.

Lemma reads_only_get_graph gid : reads_only (get_graph gid).
Proof. intros w. unfold get_graph. by destruct (graphs w !! gid). Qed.

Lemma reads_only_get_node r : reads_only (get_node r).
Proof.
  apply reads_only_bind; [apply reads_only_get_graph|]. intros g.
  destruct (nodes g !! snd r); [apply reads_only_ret|apply reads_only_raise].
Qed.

Lemma reads_only_getitem l i : reads_only (getitem l i).
Proof.
  unfold getitem. destruct (nth_error l i); [apply reads_only_ret|apply reads_only_raise].
Qed.

Lemma reads_only_attachments_get gid key d : reads_only (attachments_get gid key d).
Proof.
  apply reads_only_bind; [apply reads_only_get_graph|]. intros g. apply reads_only_ret.
Qed.

Lemma reads_only_attachments_getitem gid key : reads_only (attachments_getitem gid key).
Proof. intros w. apply attachments_getitem_pure. Qed.

Lemma reads_only_prepare_inputs node : reads_only (Node.prepare_inputs node).
Proof.
  apply reads_only_bind; [apply reads_only_get_node|]. by intros n w.
Qed.

Lemma reads_only_call_module forward gid path args kwargs :
  reads_only (ApplyModuleProtocol.call_module forward gid path args kwargs).
Proof. intros w. apply call_module_pure. Qed.

Lemma reads_only_get_bridge gid : reads_only (BridgeProtocol.get_bridge gid).
Proof.
  apply reads_only_bind.
  { apply reads_only_bind; [apply reads_only_get_graph|]. intros g. apply reads_only_ret. }
  intros has. apply reads_only_bind; [destruct (negb has); apply reads_only_ret|].
  intros _. apply reads_only_attachments_getitem.
Qed.

Lemma fails_clean_reads_only {A} (m : M A) : reads_only m -> fails_clean m.
Proof. intros Hm w e w' H. specialize (Hm w). by rewrite H in Hm. Qed.

Lemma fails_clean_bind {A B} (m : M A) (k : A -> M B) :
  reads_only m -> (forall x, fails_clean (k x)) -> fails_clean (bind m k).
Proof.
  intros Hm Hk w e w' H. unfold bind in H. specialize (Hm w).
  destruct (m w) as [[x|e0] w1]; simpl in Hm; subst w1.
  - by apply (Hk x w e).
  - by injection H as _ <-.
Qed.

Lemma fails_clean_set_value r v : fails_clean (Node.set_value r v).
Proof.
  apply fails_clean_bind; [apply reads_only_get_node|]. intros n w e w' H.
  unfold bind, put_node, bind, put_graph, record_write in H.
  pose proof (reads_only_get_graph (fst r) w) as Hg.
  destruct (get_graph (fst r) w) as [[g|x] w1]; simpl in Hg; subst w1; [done|].
  by injection H as _ <-.
Qed.

(** A computation that reads only hands its result over in the same store. *)
Lemma bind_reads_only_inv {A B} (m : M A) (k : A -> M B) w r w' :
  reads_only m ->
  bind m k w = (r, w') ->
  (exists x, m w = (Ok x, w) /\ k x w = (r, w')) \/
  (exists e, m w = (Raise e, w) /\ r = Raise e /\ w' = w).
Proof.
  intros Hm H. unfold bind in H. specialize (Hm w).
  destruct (m w) as [[x|e] w1]; simpl in Hm; subst w1.
  - left. by exists x.
  - right. exists e. by injection H as <- <-.
Qed.

Lemma get_node_inv r w n w' : get_node r w = (Ok n, w') -> lookup_node w r = Some n.
Proof.
  unfold get_node, bind, get_graph, lookup_node.
  destruct (graphs w !! fst r) as [g|]; [|done]. simpl.
  destruct (nodes g !! snd r); [|done]. by intros [= <- _].
Qed.

Lemma reads_only_bridge_get_graph bridge graph_id : reads_only (Bridge.get_graph bridge graph_id).
Proof.
  destruct bridge; try apply reads_only_raise.
  destruct graph_id; try apply reads_only_raise.
  simpl. case_decide; [|apply reads_only_raise].
  apply reads_only_bind; [apply reads_only_get_graph|]. intros _. apply reads_only_ret.
Qed.

Lemma reads_only_nodes_getitem gid key : reads_only (BridgeProtocol.nodes_getitem gid key).
Proof.
  apply reads_only_bind; [apply reads_only_get_graph|]. intros g.
  destruct key; try apply reads_only_raise.
  destruct (nodes g !! s); [apply reads_only_ret|apply reads_only_raise].
Qed.

Lemma nodes_getitem_inv gid key w r w' :
  BridgeProtocol.nodes_getitem gid key w = (Ok r, w') -> is_Some (lookup_node w r).
Proof.
  unfold BridgeProtocol.nodes_getitem, bind, get_graph.
  destruct (graphs w !! gid) as [g|] eqn:Hg; [|done].
  destruct key; try done.
  destruct (nodes g !! s) as [n|] eqn:Hn; [|done].
  intros [= <- _]. exists n. apply lookup_node_Some. by exists g.
Qed.

(** *** Composite runs *)

(** The graphs after [Graph.create]: the counter of the target advanced in
    the graph created in, attachments and the other counters untouched. *)
Lemma create_graphs w gid g target pv args kwargs gid' g0 :
  graphs w !! gid = Some g ->
  graphs w !! gid' = Some g0 ->
  exists g',
    graphs (snd (Graph.create gid target pv args kwargs w)) !! gid' = Some g' /\
    attachments g' = attachments g0 /\
    (forall t, t <> target -> name_idx g' !! t = name_idx g0 !! t).
Proof.
  intros Hg Hg0. unfold Graph.create, bind. rewrite (get_graph_ok _ _ _ Hg).
  fold (next_name g target).
  set (rs := node_refs args ++ node_refs (map snd kwargs)).
  destruct (add_listeners_graph (gid, next_name g target) rs w gid g Hg)
    as (g1 & Hg1 & Ha1 & _ & Hi1).
  destruct (add_listeners_graph (gid, next_name g target) rs w gid' g0 Hg0)
    as (g2 & Hg2 & Ha2 & _ & Hi2).
  rewrite (get_graph_ok _ _ _ Hg1). unfold put_graph, ret. cbn [snd graphs].
  destruct (decide (gid = gid')) as [<-|E].
  - rewrite lookup_insert_eq. eexists. split; [done|]. cbn.
    rewrite Hg in Hg0. injection Hg0 as <-. split; [done|].
    intros t Ht. rewrite lookup_insert_ne by done. by rewrite Hi1.
  - rewrite lookup_insert_ne by done. exists g2. split; [done|]. split; [done|].
    intros t _. by rewrite Hi2.
Qed.

Lemma next_name_ext g g' target :
  name_idx g' !! target = name_idx g !! target -> next_name g' target = next_name g target.
Proof. unfold next_name. by intros ->. Qed.

(** A well-formed bridge node executes. *)
Lemma bridge_execute_ok w node n a ids release fid lname lock vgid vname vn :
  lookup_node w node = Some n ->
  graph_attachments w (fst node) = Some a ->
  a !! "nnsight_bridge" = Some (VBridge ids release) ->
  node_args n = [VInt fid; VStr lname] ->
  fid ∈ ids ->
  lookup_node w (fid, lname) = Some lock ->
  nth_error (node_args lock) 0 = Some (VNode vgid vname) ->
  lookup_node w (vgid, vname) = Some vn ->
  node <> (fid, lname) ->
  BridgeProtocol.execute node w =
    (Ok tt,
     if release
     then store_node (fid, lname) (with_value lock VNone)
            (store_node node (with_value n (node_value vn)) w)
     else store_node node (with_value n (node_value vn)) w).
Proof.
  intros Hn Ha Hk Hargs Hin Hlock Harg0 Hvn Hne.
  unfold BridgeProtocol.execute, bind.
  rewrite (get_bridge_ok _ _ _ _ Ha Hk), (get_node_ok _ _ _ Hn), Hargs.
  pose proof Hlock as Hlock'.
  apply lookup_node_Some in Hlock' as (gs & Hgs & Hls). simpl in Hgs, Hls.
  unfold Bridge.get_graph, bind. rewrite decide_True by done.
  rewrite (get_graph_ok _ _ _ Hgs). unfold ret.
  unfold BridgeProtocol.nodes_getitem, bind.
  rewrite (get_graph_ok _ _ _ Hgs), Hls. unfold ret.
  rewrite (get_node_ok _ _ _ Hlock), (getitem_ok _ _ _ _ Harg0).
  rewrite (get_node_ok _ _ _ Hvn), (set_value_ok _ _ _ _ Hn). simpl.
  destruct release; [|reflexivity].
  apply set_value_ok. by rewrite lookup_store_node_ne.
Qed.

(** A registered callback of a node without listeners, run through the
    occurrences: the one that finds the counter at 0 stores and returns the
    gradient, the others return nothing. *)
Lemma grad_unattached_run w h t node n i vs v later :
  hooks w !! h = Some (mkHook t node i true) ->
  lookup_node w node = Some n ->
  node_listeners n = [] ->
  Z.of_nat (length vs) = i ->
  exists wc,
    occurrences h (vs ++ v :: later) w =
      (Ok (map (fun _ => VNone) vs ++ v :: map (fun _ => VNone) later), wc) /\
    graphs wc = graphs (store_node node (with_value n v) w) /\
    hooks wc !! h = Some (mkHook t node (-1) false).
Proof.
  intros He Hn Hl Hlen.
  destruct (occurrences_counting h vs w _ He eq_refl) as (wk & Ho & Hg & Hh);
    [simpl; lia|].
  simpl in Hh. rewrite Hlen, Z.sub_diag in Hh.
  set (ek := mkHook t node 0 true) in Hh.
  assert (Hek : hooks wk !! h = Some ek).
  { rewrite Hh. apply list_lookup_insert_eq. by apply lookup_lt_Some with (mkHook t node i true). }
  assert (Hnk : lookup_node wk node = Some n) by (by rewrite (lookup_node_graphs w wk node Hg)).
  set (w1 := store_node node (with_value n v) wk).
  assert (Hcc : capture_consult node v wk = (Ok v, w1)).
  { unfold capture_consult, bind. rewrite (set_value_ok _ _ _ _ Hnk).
    unfold Node.attached, bind.
    erewrite get_node_ok by (by apply lookup_store_node_eq with n).
    unfold ret, has_listener. simpl. by rewrite Hl. }
  set (wc := store_hook h (mkHook t node (-1) false) w1).
  assert (Hocc : occurrence h v wk = (Ok v, wc)).
  { unfold occurrence, bind. rewrite (get_hook_ok _ _ _ Hek). simpl.
    rewrite (grad_capture wk h ek v Hek eq_refl). simpl. by rewrite Hcc. }
  assert (Hec : hooks wc !! h = Some (mkHook t node (-1) false)).
  { unfold wc. simpl. apply list_lookup_insert_eq. by apply lookup_lt_Some with ek. }
  exists wc. split; [|split; [|exact Hec]].
  - rewrite (occurrences_app h vs w _ wk (v :: later) Ho).
    simpl. unfold bind. rewrite Hocc.
    by rewrite (occurrences_unregistered h later wc _ Hec eq_refl).
  - unfold wc, w1, store_node. simpl. by rewrite Hg.
Qed.

(** *** Induction on values, through lists *)

Lemma Value_list_ind (P : Value -> Prop) :
  (forall v, (forall items, v <> VList items) -> P v) ->
  (forall items, Forall P items -> P (VList items)) ->
  forall v, P v.
Proof.
  intros Hleaf Hlist. fix IH 1. intros v.
  destruct v as [| | | | | | |items| |]; try (apply Hleaf; intros items'; discriminate).
  apply Hlist. induction items as [|x xs IHxs]; constructor; [apply IH|exact IHxs].
Qed.

Lemma visited_list cls items :
  cls (VList items) = false ->
  util.visited (VList items) cls = flat_map (fun d => util.visited d cls) items.
Proof. intros H. simpl. by rewrite H. Qed.

(** After [util.apply _ (to d) is_tensor] every tensor is on [d]. *)
Lemma relocated_tensors d v :
  Forall (on_device d) (util.visited (util.apply v (to d) is_tensor) is_tensor).
Proof.
  induction v as [v Hleaf|items IH] using Value_list_ind.
  - destruct v as [| | | | |dev data rg| |items| |]; simpl; try (by constructor).
    + constructor; [by exists data, rg|constructor].
    + by destruct (Hleaf items).
  - simpl. apply Forall_flat_map. rewrite Forall_map. exact IH.
Qed.

Lemma create_only_creates w node n g target pv rest :
  lookup_node w node = Some n ->
  graphs w !! fst node = Some g ->
  snd node <> next_name g target ->
  only_creates w node n g target
    (Graph.create (fst node) target pv (VNode (fst node) (snd node) :: rest) []).
Proof.
  intros Hn Hg Hfresh.
  assert (Hne : node <> (fst node, next_name g target)).
  { intros E. apply Hfresh. by rewrite E. }
  destruct (create_spec w (fst node) g target pv (VNode (fst node) (snd node) :: rest) [] Hg)
    as (w' & Hc & _ & Hh & Hat).
  destruct (create_attaches w (fst node) g target pv node rest [] n Hg Hne Hn)
    as (n' & Hn' & Hcore & Hatt).
  rewrite Hc in Hn'. cbn [snd] in Hn'.
  exists w', n'. split; [exact Hc|]. split; [exact Hh|]. split; [exact Hat|].
  split; [exact Hn'|]. split; [exact Hcore|]. split; [exact Hatt|].
  intros r m Hr Hm.
  pose proof (create_frame w (fst node) g target pv (VNode (fst node) (snd node) :: rest) []
                r m Hg Hr Hm) as Hfr.
  by rewrite Hc in Hfr.
Qed.

(** [util.apply] with the callbacks of [get_swap] does what the
    specification says of it. *)
Lemma apply_value_of_real w x :
  util.apply x (value_of w) is_node = real_value w x.
Proof.
  induction x as [x Hleaf|items IH] using Value_list_ind.
  - destruct x as [| | | | | | |items| |]; try reflexivity.
    by destruct (Hleaf items).
  - simpl. f_equal. by apply map_ext_Forall.
Qed.


Lemma writes_store_attachment gid key v w :
  writes (store_attachment gid key v w) = writes w.
Proof. done. Qed.

Lemma writes_store_node r n w :
  writes (store_node r n w) = writes w ++ [(r, node_value n)].
Proof. done. Qed.

(** The counting occurrences only write the callback's own counter. *)
Lemma occurrences_counting_store h vs : forall w e,
  hooks w !! h = Some e ->
  hook_registered e = true ->
  Z.of_nat (length vs) <= hook_backward_idx e ->
  occurrences h vs w =
    (Ok (map (fun _ => VNone) vs),
     store_hook h (mkHook (hook_tensor e) (hook_node e)
                          (hook_backward_idx e - Z.of_nat (length vs)) true) w).
Proof.
  induction vs as [|v vs IH]; intros w e He Hr Hlen.
  - simpl. unfold ret, store_hook. f_equal. rewrite Z.sub_0_r.
    rewrite list_insert_id; [by destruct w|].
    rewrite He. f_equal. destruct e; simpl in *; by subst.
  - simpl length in Hlen. simpl. unfold bind.
    rewrite (occurrence_counting _ _ _ _ He Hr) by lia.
    set (e1 := mkHook (hook_tensor e) (hook_node e) (hook_backward_idx e - 1) true).
    rewrite (IH (store_hook h e1 w) e1); cycle 1.
    { simpl. apply list_lookup_insert_eq. by apply lookup_lt_Some with e. }
    { done. }
    { simpl. lia. }
    unfold ret, store_hook. simpl. rewrite list_insert_insert_eq.
    do 4 f_equal. lia.
Qed.

(** Creating a node sets no value. *)
Lemma add_listeners_writes l rs : forall w, writes (add_listeners l rs w) = writes w.
Proof.
  unfold add_listeners. induction rs as [|r rs IH]; intros w; simpl; [done|].
  by rewrite IH.
Qed.

Lemma create_writes gid target pv args kwargs w :
  writes (snd (Graph.create gid target pv args kwargs w)) = writes w.
Proof.
  unfold Graph.create, bind, get_graph.
  destruct (graphs w !! gid) as [g|]; [|done].
  set (w1 := add_listeners _ _ w).
  assert (Hw1 : writes w1 = writes w) by apply add_listeners_writes.
  simpl. destruct (graphs w1 !! gid) as [g1|]; simpl; by rewrite Hw1.
Qed.

(** ** The protocols' properties *)

(** C9. [LockProtocol.add] creates a node whose single argument is the given
    node and whose proxy value is [None]; executing a lock node, directly or
    through the registry, returns normally and leaves the whole store (every
    node's value, every graph, every attachment, every callback) as it was. *)
Theorem lock_add_creates_execute_noop (forward : Forward) (w : World) (node : NodeRef) (g : Graph) :
  graphs w !! fst node = Some g ->
  (exists lock w',
      LockProtocol.add node w = (Ok lock, w') /\
      fst lock = fst node /\
      lookup_node w' lock =
        Some (mkNode "lock" [VNode (fst node) (snd node)] [] VNone VEmpty [])) /\
  (forall (lock : NodeRef) (w1 : World),
      LockProtocol.execute lock w1 = (Ok tt, w1) /\
      exists p, PROTOCOLS forward !! "lock" = Some p /\
                protocol_execute p lock w1 = (Ok tt, w1)).
Proof.
  intros Hg. split.
  - destruct (create_spec w (fst node) g LockProtocol.name VNone
                [VNode (fst node) (snd node)] [] Hg) as (w' & Hc & Hl & _).
    eexists _, w'. split; [exact Hc|]. split; [reflexivity|exact Hl].
  - intros lock w1. split; [reflexivity|].
    exists (mkProtocol LockProtocol.name LockProtocol.execute). split; [|reflexivity].
    unfold PROTOCOLS, register_protocol. simpl.
    rewrite !lookup_insert_ne by done. by rewrite lookup_insert_eq.
Qed.

Lemma lock_add_creates_execute_noop_witness :
  exists lock w',
    LockProtocol.add (1, "x_0") example_world = (Ok lock, w') /\
    fst lock = 1 /\
    lookup_node w' lock = Some (mkNode "lock" [VNode 1 "x_0"] [] VNone VEmpty []).
Proof.
  apply (lock_add_creates_execute_noop example_forward example_world (1, "x_0") example_graph).
  reflexivity.
Defined.

(** C7. [GradProtocol.add] creates a node whose proxy value is the input
    node's proxy value and whose arguments are exactly the node and the
    graph's [nnsight_backward_idx] attachment, 0 when there is none;
    [GradProtocol.increment] stores that counter (0 when absent) plus one. *)
Theorem grad_add_increment (w : World) (node : NodeRef) (n : Node)
    (a : gmap string Value) (i : Z) :
  lookup_node w node = Some n ->
  graph_attachments w (fst node) = Some a ->
  default (VInt 0) (a !! "nnsight_backward_idx") = VInt i ->
  (exists r w',
      GradProtocol.add node w = (Ok r, w') /\
      lookup_node w' r =
        Some (mkNode "grad" [VNode (fst node) (snd node); VInt i] []
                     (node_proxy_value n) VEmpty [])) /\
  GradProtocol.increment (fst node) w =
    (Ok tt, store_attachment (fst node) "nnsight_backward_idx" (VInt (i + 1)) w) /\
  graph_attachments
    (store_attachment (fst node) "nnsight_backward_idx" (VInt (i + 1)) w) (fst node)
  = Some (<["nnsight_backward_idx" := VInt (i + 1)]> a).
Proof.
  intros Hn Ha Hi. split; [|split].
  - unfold GradProtocol.add, bind.
    rewrite (attachments_get_ok _ _ _ _ _ Ha).
    rewrite (get_node_ok _ _ _ Hn).
    unfold GradProtocol.attachment_name. rewrite Hi.
    apply lookup_node_Some in Hn as (g & Hg & _).
    destruct (create_spec w (fst node) g GradProtocol.name (node_proxy_value n)
                [VNode (fst node) (snd node); VInt i] [] Hg) as (w' & Hc & Hl & _).
    eexists _, w'. split; [exact Hc|exact Hl].
  - unfold GradProtocol.increment, bind.
    rewrite (attachments_get_ok _ _ _ _ _ Ha).
    unfold GradProtocol.attachment_name. rewrite Hi.
    by apply attachments_setitem_ok with a.
  - by apply attachments_store_attachment_eq.
Qed.

Lemma grad_add_increment_witness :
  GradProtocol.increment 1 example_world =
    (Ok tt, store_attachment 1 "nnsight_backward_idx" (VInt (0 + 1)) example_world).
Proof.
  apply (grad_add_increment example_world (1, "x_0")
           (mkNode "x" [] [] (VTensor "meta" 0 true) (VTensor "cpu" 42 true) []) ∅ 0);
    reflexivity.
Defined.

(** C6. In a graph whose attachments have no [nnsight_root_module],
    [get_module] raises (a [KeyError]) instead of returning a default; in one
    whose attachments have no [nnsight_bridge], [get_bridge] raises, and so
    does [BridgeProtocol.execute], before it has written anything. *)
Theorem missing_attachment_raises (w : World) (gid : Z) (a : gmap string Value) :
  graph_attachments w gid = Some a ->
  (a !! "nnsight_root_module" = None ->
   ApplyModuleProtocol.get_module gid w =
     (Raise (KeyError (VStr "nnsight_root_module")), w)) /\
  (a !! "nnsight_bridge" = None ->
   BridgeProtocol.get_bridge gid w = (Raise (KeyError (VStr "nnsight_bridge")), w) /\
   forall name, BridgeProtocol.execute (gid, name) w =
                  (Raise (KeyError (VStr "nnsight_bridge")), w)).
Proof.
  intros Ha. split.
  - intros Hk. by apply attachments_getitem_missing with a.
  - intros Hk.
    assert (Hb : BridgeProtocol.get_bridge gid w =
                 (Raise (KeyError (VStr "nnsight_bridge")), w)).
    { unfold BridgeProtocol.get_bridge, BridgeProtocol.has_bridge, bind.
      unfold graph_attachments in Ha.
      destruct (graphs w !! gid) as [g|] eqn:Hg; simpl in Ha; [|done].
      injection Ha as <-.
      rewrite (get_graph_ok _ _ _ Hg). unfold ret.
      destruct (negb _); apply attachments_getitem_missing with (attachments g);
        unfold graph_attachments; by rewrite ?Hg. }
    split; [exact Hb|].
    intros name. unfold BridgeProtocol.execute, bind. simpl. by rewrite Hb.
Qed.

Lemma missing_attachment_raises_witness :
  ApplyModuleProtocol.get_module 1 example_world =
    (Raise (KeyError (VStr "nnsight_root_module")), example_world) /\
  forall name, BridgeProtocol.execute (1, name) example_world =
                 (Raise (KeyError (VStr "nnsight_bridge")), example_world).
Proof.
  destruct (missing_attachment_raises example_world 1 ∅ eq_refl) as [H1 H2].
  split; [apply H1; reflexivity | apply H2; reflexivity].
Defined.



(** C5. [SwapProtocol.execute] sets the value of the currently active swap
    node, if there is one, to [False] and installs the executing node as the
    graph's swap attachment.  After two distinct swap nodes of a graph have
    executed one after the other, the first one's value is [False], and a
    consultation returns the second one's replacement (unwrapped and
    relocated), sets the second one's value to [True] and leaves the first
    one's at [False]. *)
Theorem swap_execute_supersedes (w : World) (gid : Z) (a : gmap string Value) :
  graph_attachments w gid = Some a ->
  (forall name,
     default VNone (a !! "nnsight_swap") = VNone ->
     SwapProtocol.execute (gid, name) w =
       (Ok tt, store_attachment gid "nnsight_swap" (VNode gid name) w)) /\
  (forall name sgid sname s,
     a !! "nnsight_swap" = Some (VNode sgid sname) ->
     lookup_node w (sgid, sname) = Some s ->
     let w' := store_attachment gid "nnsight_swap" (VNode gid name)
                 (store_node (sgid, sname) (with_value s (VBool false)) w) in
     SwapProtocol.execute (gid, name) w = (Ok tt, w') /\
     lookup_node w' (sgid, sname) = Some (with_value s (VBool false)) /\
     graph_attachments w' gid = Some (<["nnsight_swap" := VNode gid name]> a)) /\
  (forall name1 name2 s1 s2 stored v,
     swap_ready w gid ->
     name1 <> name2 ->
     lookup_node w (gid, name1) = Some s1 ->
     lookup_node w (gid, name2) = Some s2 ->
     nth_error (node_args s2) 1 = Some stored ->
     exists w1 w2 w3,
       SwapProtocol.execute (gid, name1) w = (Ok tt, w1) /\
       SwapProtocol.execute (gid, name2) w1 = (Ok tt, w2) /\
       node_value <$> lookup_node w2 (gid, name1) = Some (VBool false) /\
       SwapProtocol.get_swap gid v w2 =
         (Ok (SwapProtocol.relocate (SwapProtocol.recorded_device v)
                (util.apply stored (value_of w2) is_node)), w3) /\
       node_value <$> lookup_node w3 (gid, name1) = Some (VBool false) /\
       node_value <$> lookup_node w3 (gid, name2) = Some (VBool true)).
Proof.
  intros Ha. split; [|split].
  - intros name Hd. by apply (swap_execute_none w (gid, name) a).
  - intros name sgid sname s Hk Hs w'. split; [|split].
    + exact (swap_execute_active w (gid, name) a sgid sname s Ha Hk Hs).
    + unfold w'. rewrite lookup_store_attachment. by apply lookup_store_node_eq with s.
    + apply attachments_store_attachment_eq. by rewrite attachments_store_node.
  - intros name1 name2 s1 s2 stored v Hready Hne H1 H2 Hst.
    destruct (swap_execute_ready w (gid, name1) Hready)
      as (a0 & w1 & Ha0 & He1 & Ha1 & Hkeep1 & _).
    simpl in *.
    destruct (Hkeep1 _ _ H1) as (s1' & H1' & _).
    destruct (Hkeep1 _ _ H2) as (s2' & H2' & Hargs2).
    assert (Hne' : (gid, name1) <> (gid, name2)) by congruence.
    assert (Hne'' : (gid, name2) <> (gid, name1)) by congruence.
    set (w2 := store_attachment gid "nnsight_swap" (VNode gid name2)
                 (store_node (gid, name1) (with_value s1' (VBool false)) w1)).
    assert (L21 : lookup_node w2 (gid, name1) = Some (with_value s1' (VBool false))).
    { unfold w2. rewrite lookup_store_attachment. by apply lookup_store_node_eq with s1'. }
    assert (L22 : lookup_node w2 (gid, name2) = Some s2').
    { unfold w2. rewrite lookup_store_attachment.
      by rewrite lookup_store_node_ne. }
    assert (Ha2 : graph_attachments w2 gid =
                  Some (<["nnsight_swap" := VNode gid name2]>
                          (<["nnsight_swap" := VNode gid name1]> a0))).
    { apply attachments_store_attachment_eq. by rewrite attachments_store_node. }
    exists w1, w2. eexists. split; [exact He1|]. split.
    { refine (swap_execute_active w1 (gid, name2) _ gid name1 s1' Ha1 _ H1').
      by rewrite lookup_insert_eq. }
    split; [by rewrite L21|]. split.
    { refine (get_swap_active w2 gid _ v gid name2 s2' stored Ha2 _ L22 _).
      - by rewrite lookup_insert_eq.
      - by rewrite Hargs2. }
    split.
    + rewrite lookup_store_attachment, lookup_store_node_ne by done. by rewrite L21.
    + rewrite lookup_store_attachment.
      by rewrite (lookup_store_node_eq _ _ _ (with_value s2' (VBool true)) L22).
Qed.

Lemma swap_execute_supersedes_witness :
  exists w1 w2 w3,
    SwapProtocol.execute (2, "swap_0") (swap_world ∅) = (Ok tt, w1) /\
    SwapProtocol.execute (2, "swap_1") w1 = (Ok tt, w2) /\
    node_value <$> lookup_node w2 (2, "swap_0") = Some (VBool false) /\
    SwapProtocol.get_swap 2 (VInt 9) w2 =
      (Ok (SwapProtocol.relocate (SwapProtocol.recorded_device (VInt 9))
             (util.apply (VInt 7) (value_of w2) is_node)), w3) /\
    node_value <$> lookup_node w3 (2, "swap_0") = Some (VBool false) /\
    node_value <$> lookup_node w3 (2, "swap_1") = Some (VBool true).
Proof.
  destruct (swap_execute_supersedes (swap_world ∅) 2 ∅ eq_refl) as (_ & _ & H).
  apply (H "swap_0" "swap_1" swap_0 swap_1 (VInt 7) (VInt 9)).
  - exists ∅. split; [reflexivity|exact I].
  - discriminate.
  - reflexivity.
  - reflexivity.
  - reflexivity.
Defined.

(** C4. [ApplyModuleProtocol.execute] resolves the node's arguments to their
    real values (every node among them replaced by the value it holds),
    takes the first as the attribute path, fetches the module at that path
    from the root stored under [nnsight_root_module], calls its forward with
    the remaining values and the keyword values, and writes the result as
    the node's value: one call of [set_value], on that node, with that
    result, nothing else in the store changing. *)
Theorem apply_module_execute (forward : Forward) (w : World) (node : NodeRef) (n : Node)
    (a : gmap string Value) (root first : Value) (others : list Value)
    (fwd : nat) (ps : list Value) (attrs : list (string * Value)) (output : Value) :
  lookup_node w node = Some n ->
  graph_attachments w (fst node) = Some a ->
  a !! "nnsight_root_module" = Some root ->
  node_args n = first :: others ->
  fetch_attr root (real_value w first) = Ok (VModule fwd ps attrs) ->
  forward fwd (map (real_value w) others)
          (map (fun kv => (fst kv, real_value w (snd kv))) (node_kwargs n)) = Ok output ->
  exists w',
    ApplyModuleProtocol.execute forward node w = (Ok tt, w') /\
    node_value <$> lookup_node w' node = Some output /\
    lookup_node w' node =
      Some (mkNode (node_target n) (node_args n) (node_kwargs n) (node_proxy_value n)
                   output (node_listeners n)) /\
    writes w' = writes w ++ [(node, output)] /\
    hooks w' = hooks w /\
    (forall r, r <> node -> lookup_node w' r = lookup_node w r) /\
    (forall gid, graph_attachments w' gid = graph_attachments w gid).
Proof.
  intros Hn Ha Hk Hargs Hf Hfw.
  exists (store_node node (with_value n output) w).
  assert (Hl : lookup_node (store_node node (with_value n output) w) node =
               Some (with_value n output)) by (by apply lookup_store_node_eq with n).
  split; [|split; [|split; [|split; [|split; [|split]]]]].
  - unfold ApplyModuleProtocol.execute, bind.
    rewrite (prepare_inputs_ok _ _ _ Hn). simpl. rewrite Hargs. simpl.
    rewrite apply_value_of_real.
    rewrite (map_ext _ (real_value w) (apply_value_of_real w)).
    rewrite (map_ext (fun kv : string * Value =>
                        (fst kv, util.apply (snd kv) (value_of w) is_node))
                     (fun kv => (fst kv, real_value w (snd kv))))
      by (intros kv; by rewrite apply_value_of_real).
    rewrite (call_module_ok forward w (fst node) a root _ fwd ps attrs _ _ Ha Hk Hf).
    rewrite Hfw. by apply set_value_ok.
  - by rewrite Hl.
  - exact Hl.
  - done.
  - done.
  - intros r Hr. by apply lookup_store_node_ne.
  - intros gid. apply attachments_store_node.
Qed.

(** The scenario of the specification: root [M], path [layer1], argument [x]. *)
Lemma apply_module_execute_witness :
  exists w',
    ApplyModuleProtocol.execute example_forward (3, "module_0")
      (module_world false {[ "nnsight_root_module" := example_root ]}) = (Ok tt, w') /\
    node_value <$> lookup_node w' (3, "module_0") =
      Some (VList [VInt 7; VTensor "cpu" 42 true]) /\
    writes w' = [((3, "module_0"), VList [VInt 7; VTensor "cpu" 42 true])] /\
    writes (snd (ApplyModuleProtocol.execute example_forward (3, "module_0")
                   (module_world false {[ "nnsight_root_module" := example_root ]}))) =
      [((3, "module_0"), VList [VInt 7; VTensor "cpu" 42 true])].
Proof.
  destruct (apply_module_execute example_forward
              (module_world false {[ "nnsight_root_module" := example_root ]})
              (3, "module_0") module_0
              {[ "nnsight_root_module" := example_root ]} example_root
              (VStr "layer1") [VNode 3 "x_0"] 7%nat [] []
              (VList [VInt 7; VTensor "cpu" 42 true]))
    as (w' & Hex & Hval & _ & Hwrites & _); try reflexivity.
  exists w'. split; [exact Hex|]. split; [exact Hval|]. split; [exact Hwrites|].
  reflexivity.
Defined.

(** C8. Outside validation mode [add] leaves the created node's proxy value
    unset.  In validation mode the device lookup never raises (a failure
    gives the device [None]), but the placeholders are then asked of the
    name [Node], which is bound while type checking only: every validating
    [add] raises [NameError], whatever the root, the path and the
    arguments, and creates no node. *)
Theorem add_validating_raises_name_error (forward : Forward) (w : World) (gid : Z)
    (g : Graph) (module_path : Value) (args : list Value) (kwargs : list (string * Value)) :
  graphs w !! gid = Some g ->
  (validate g = false ->
   exists r w',
     ApplyModuleProtocol.add forward gid module_path args kwargs w = (Ok r, w') /\
     lookup_node w' r = Some (mkNode "module" (module_path :: args) kwargs VEmpty VEmpty [])) /\
  (validate g = true ->
   (exists device, ApplyModuleProtocol.resolve_device gid w = (Ok device, w)) /\
   (forall e, fst (ApplyModuleProtocol.device_of_root gid w) = Raise e ->
      ApplyModuleProtocol.resolve_device gid w = (Ok None, w)) /\
   ApplyModuleProtocol.add forward gid module_path args kwargs w =
     (Raise (NameError "Node"), w)).
Proof.
  intros Hg. split.
  - intros Hv. unfold ApplyModuleProtocol.add, bind.
    rewrite (get_graph_ok _ _ _ Hg), Hv. unfold ret.
    destruct (create_spec w gid g ApplyModuleProtocol.name VEmpty (module_path :: args)
                kwargs Hg) as (w' & Hc & Hl & _).
    eexists _, w'. split; [exact Hc|exact Hl].
  - intros Hv.
    assert (Hr : exists device, ApplyModuleProtocol.resolve_device gid w = (Ok device, w)).
    { unfold ApplyModuleProtocol.resolve_device, try_except.
      pose proof (device_of_root_pure gid w) as Hp.
      destruct (ApplyModuleProtocol.device_of_root gid w) as [[device|e] w1];
        simpl in Hp; subst w1; [by exists device|by exists None]. }
    split; [exact Hr|]. split.
    + intros e He. unfold ApplyModuleProtocol.resolve_device, try_except.
      pose proof (device_of_root_pure gid w) as Hp.
      destruct (ApplyModuleProtocol.device_of_root gid w) as [r w1]. simpl in *.
      by subst.
    + destruct Hr as (device & Hr). unfold ApplyModuleProtocol.add, bind.
      by rewrite (get_graph_ok _ _ _ Hg), Hv, Hr.
Qed.

(** A validating graph whose root has no parameters: the device lookup
    fails, is caught, and [add] raises all the same. *)
Lemma add_validating_raises_name_error_witness :
  let w := module_world true {[ "nnsight_root_module" := example_root ]} in
  fst (ApplyModuleProtocol.device_of_root 3 w) = Raise StopIteration /\
  ApplyModuleProtocol.resolve_device 3 w = (Ok None, w) /\
  ApplyModuleProtocol.add example_forward 3 (VStr "layer1") [VNode 3 "x_0"] [] w =
    (Raise (NameError "Node"), w).
Proof.
  intros w.
  destruct (add_validating_raises_name_error example_forward w 3
              (module_graph true {[ "nnsight_root_module" := example_root ]})
              (VStr "layer1") [VNode 3 "x_0"] [] eq_refl) as [_ H].
  destruct (H eq_refl) as (_ & Hnone & Hadd).
  split; [reflexivity|]. split; [apply (Hnone StopIteration); reflexivity|exact Hadd].
Defined.

(** C3. [BridgeProtocol.add] creates a lock node on [from_node], in its
    graph, and a bridge node in [to_node]'s graph whose arguments are exactly
    the source graph's identifier and the lock node's name.
    [BridgeProtocol.execute] sets the bridge node's value to the value the
    locked node has at that moment and, only if the directory's [release]
    flag is set, sets the lock node's value to [None]: the record of the
    calls of [set_value] grows by the write to the bridge node, followed,
    with [release], by the write to the lock, in that order, and by nothing
    else. *)
Theorem bridge_add_execute (w : World) :
  (forall (from_node to_node : NodeRef) gf nf gt,
     graphs w !! fst from_node = Some gf ->
     nodes gf !! snd from_node = Some nf ->
     graphs w !! fst to_node = Some gt ->
     exists lock_node bridge_node w' pv,
       BridgeProtocol.add from_node to_node w = (Ok bridge_node, w') /\
       fst lock_node = fst from_node /\
       fst bridge_node = fst to_node /\
       lookup_node w' lock_node =
         Some (mkNode "lock" [VNode (fst from_node) (snd from_node)] [] VNone VEmpty []) /\
       lookup_node w' bridge_node =
         Some (mkNode "bridge" [VInt (fst from_node); VStr (snd lock_node)] [] pv VEmpty []) /\
       writes w' = writes w) /\
  (forall (node : NodeRef) n a ids release from_graph_id lock_name lock vgid vname vn,
     lookup_node w node = Some n ->
     graph_attachments w (fst node) = Some a ->
     a !! "nnsight_bridge" = Some (VBridge ids release) ->
     node_args n = [VInt from_graph_id; VStr lock_name] ->
     from_graph_id ∈ ids ->
     lookup_node w (from_graph_id, lock_name) = Some lock ->
     nth_error (node_args lock) 0 = Some (VNode vgid vname) ->
     lookup_node w (vgid, vname) = Some vn ->
     node <> (from_graph_id, lock_name) ->
     exists w1 w2,
       Node.set_value node (node_value vn) w = (Ok tt, w1) /\
       node_value <$> lookup_node w1 node = Some (node_value vn) /\
       lookup_node w1 (from_graph_id, lock_name) = Some lock /\
       BridgeProtocol.execute node w =
         (if release then Node.set_value (from_graph_id, lock_name) VNone else ret tt) w1 /\
       BridgeProtocol.execute node w = (Ok tt, w2) /\
       node_value <$> lookup_node w2 node = Some (node_value vn) /\
       node_value <$> lookup_node w2 (from_graph_id, lock_name) =
         Some (if release then VNone else node_value lock) /\
       writes w2 =
         writes w ++ (node, node_value vn) ::
           (if release then [((from_graph_id, lock_name), VNone)] else []) /\
       (forall r, r <> node -> r <> (from_graph_id, lock_name) ->
          lookup_node w2 r = lookup_node w r)).
Proof.
  split.
  - intros from_node to_node gf nf gt Hgf Hnf Hgt.
    unfold BridgeProtocol.add, LockProtocol.add, Node.create, bind.
    destruct (create_spec w (fst from_node) gf LockProtocol.name VNone
                [VNode (fst from_node) (snd from_node)] [] Hgf) as (w1 & Hc & Hl & _ & Hat).
    pose proof (create_keeps_nodes w (fst from_node) gf LockProtocol.name VNone
                  [VNode (fst from_node) (snd from_node)] [] from_node Hgf) as Hkeep.
    pose proof (create_writes (fst from_node) LockProtocol.name VNone
                  [VNode (fst from_node) (snd from_node)] [] w) as Hw1.
    rewrite Hc in Hkeep, Hw1 |- *. simpl in Hkeep, Hw1.
    destruct Hkeep as [nf' Hnf'].
    { apply (mk_is_Some _ nf). apply lookup_node_Some. eauto. }
    rewrite (get_node_ok _ _ _ Hnf'). simpl.
    assert (Hgt1 : exists gt', graphs w1 !! fst to_node = Some gt').
    { specialize (Hat (fst to_node)). unfold graph_attachments in Hat.
      rewrite Hgt in Hat. destruct (graphs w1 !! fst to_node); [eauto|done]. }
    destruct Hgt1 as (gt' & Hgt').
    set (lname := LockProtocol.name +:+ "_" +:+
                  pretty (default 0%nat (name_idx gf !! LockProtocol.name))) in *.
    destruct (create_spec w1 (fst to_node) gt' BridgeProtocol.name (node_proxy_value nf')
                [VInt (fst from_node); VStr lname] [] Hgt') as (w' & Hc' & Hl' & _).
    pose proof (create_writes (fst to_node) BridgeProtocol.name (node_proxy_value nf')
                  [VInt (fst from_node); VStr lname] [] w1) as Hw'.
    rewrite Hc' in Hw'. simpl in Hw'.
    exists (fst from_node, lname). eexists _, w', (node_proxy_value nf').
    split; [exact Hc'|]. split; [done|]. split; [done|].
    split; [|split; [exact Hl'|congruence]].
    pose proof (create_plain_frame w1 (fst to_node) gt' BridgeProtocol.name
                  (node_proxy_value nf') [VInt (fst from_node); VStr lname] []
                  (fst from_node, lname) Hgt' eq_refl) as Hfr.
    rewrite Hc' in Hfr. simpl in Hfr. rewrite Hfr; [exact Hl|].
    intros [= _ E].
  - intros node n a ids release fid lname lock vgid vname vn
           Hn Ha Hk Hargs Hin Hlock Harg0 Hvn Hne.
    set (w1 := store_node node (with_value n (node_value vn)) w).
    set (w2 := if release
               then store_node (fid, lname) (with_value lock VNone) w1
               else w1).
    assert (L1 : lookup_node w1 node = Some (with_value n (node_value vn))).
    { by apply lookup_store_node_eq with n. }
    assert (L2 : lookup_node w1 (fid, lname) = Some lock).
    { unfold w1. rewrite lookup_store_node_ne by done. exact Hlock. }
    assert (Hset : Node.set_value node (node_value vn) w = (Ok tt, w1)).
    { by apply set_value_ok. }
    assert (Hstep : BridgeProtocol.execute node w =
              (if release then Node.set_value (fid, lname) VNone else ret tt) w1).
    { unfold BridgeProtocol.execute, bind.
      rewrite (get_bridge_ok _ _ _ _ Ha Hk), (get_node_ok _ _ _ Hn), Hargs.
      pose proof Hlock as Hlock'.
      apply lookup_node_Some in Hlock' as (gs & Hgs & Hls). simpl in Hgs, Hls.
      unfold Bridge.get_graph, bind. rewrite decide_True by done.
      rewrite (get_graph_ok _ _ _ Hgs). unfold ret.
      unfold BridgeProtocol.nodes_getitem, bind.
      rewrite (get_graph_ok _ _ _ Hgs), Hls. unfold ret.
      rewrite (get_node_ok _ _ _ Hlock), (getitem_ok _ _ _ _ Harg0).
      rewrite (get_node_ok _ _ _ Hvn), Hset. simpl. by destruct release. }
    exists w1, w2.
    split; [exact Hset|]. split; [by rewrite L1|]. split; [exact L2|].
    split; [exact Hstep|]. split; [|split; [|split; [|split]]].
    + rewrite Hstep. unfold w2. destruct release; [|reflexivity].
      by apply set_value_ok.
    + unfold w2. destruct release; [|by rewrite L1].
      rewrite lookup_store_node_ne by done. by rewrite L1.
    + unfold w2. destruct release; [|by rewrite L2].
      by rewrite (lookup_store_node_eq _ _ _ (with_value lock VNone) L2).
    + unfold w2, w1. destruct release; simpl; [|done].
      by rewrite <- app_assoc.
    + intros r Hr1 Hr2. unfold w2. destruct release.
      * rewrite lookup_store_node_ne by done. by apply lookup_store_node_ne.
      * by apply lookup_store_node_ne.
Qed.

Lemma bridge_add_execute_witness :
  (exists lock_node bridge_node w' pv,
     BridgeProtocol.add (5, "x_0") (6, "bridge_0") (bridge_world true) = (Ok bridge_node, w') /\
     fst lock_node = 5 /\
     fst bridge_node = 6 /\
     lookup_node w' lock_node = Some (mkNode "lock" [VNode 5 "x_0"] [] VNone VEmpty []) /\
     lookup_node w' bridge_node =
       Some (mkNode "bridge" [VInt 5; VStr (snd lock_node)] [] pv VEmpty []) /\
     writes w' = []) /\
  exists w2,
    BridgeProtocol.execute (6, "bridge_0") (bridge_world true) = (Ok tt, w2) /\
    node_value <$> lookup_node w2 (6, "bridge_0") = Some (VTensor "cpu" 42 true) /\
    node_value <$> lookup_node w2 (5, "lock_0") = Some VNone /\
    writes w2 = [((6, "bridge_0"), VTensor "cpu" 42 true); ((5, "lock_0"), VNone)] /\
    writes (snd (BridgeProtocol.execute (6, "bridge_0") (bridge_world true))) =
      [((6, "bridge_0"), VTensor "cpu" 42 true); ((5, "lock_0"), VNone)].
Proof.
  destruct (bridge_add_execute (bridge_world true)) as [Hadd H].
  split.
  - exact (Hadd (5, "x_0") (6, "bridge_0") bridge_source
             (mkNode "x" [] [] (VTensor "meta" 0 true) (VTensor "cpu" 42 true) [(5, "lock_0")])
             (bridge_target true) eq_refl eq_refl eq_refl).
  - destruct (H (6, "bridge_0") bridge_0 {[ "nnsight_bridge" := VBridge [5; 6] true ]}
                [5; 6] true 5 "lock_0" (mkNode "lock" [VNode 5 "x_0"] [] VNone VEmpty [])
                5 "x_0"
                (mkNode "x" [] [] (VTensor "meta" 0 true) (VTensor "cpu" 42 true)
                        [(5, "lock_0")]))
      as (w1 & w2 & _ & _ & _ & _ & Hex & Hv & Hl & Hw & _);
      try reflexivity.
    + apply list_elem_of_In. simpl. auto.
    + discriminate.
    + exists w2. split; [exact Hex|]. split; [exact Hv|]. split; [exact Hl|].
      split; [exact Hw|reflexivity].
Defined.

(** C1. Executing a grad node whose arguments resolve to a tensor and the
    counter [i >= 0] registers the callback with that counter, provided the
    tensor requires a gradient (torch refuses the others, and [execute]
    raises with nothing registered).  Each of the first [i] occurrences
    decrements the counter and returns no replacement, leaving the graphs
    untouched and setting no value.  The next occurrence sets the node's
    value to the incoming gradient, consults [get_swap] if and only if the
    node has a listener (otherwise it returns the gradient itself), sets the
    counter to -1 and unregisters the callback; every later occurrence
    returns no replacement and changes nothing. *)
Theorem grad_callback_captures_once (w : World) (node : NodeRef) (n : Node)
    (d : string) (data : Z) (rg : bool) (i : Z) (more_args : list Value) :
  lookup_node w node = Some n ->
  map (real_value w) (node_args n) = VTensor d data rg :: VInt i :: more_args ->
  0 <= i ->
  node_listeners n = [] \/ swap_ready w (fst node) ->
  let h := length (hooks w) in
  let w0 := MkWorld (graphs w) (hooks w ++ [mkHook (VTensor d data rg) node i true])
                    (writes w) in
  let none := map (fun _ : Value => VNone) in
  (rg = false ->
   GradProtocol.execute node w =
     (Raise (RuntimeError "cannot register a hook on a tensor that doesn't require gradient"),
      w)) /\
  (rg = true ->
   GradProtocol.execute node w = (Ok tt, w0) /\
   (forall vs, Z.of_nat (length vs) <= i ->
      exists wk,
        occurrences h vs w0 = (Ok (none vs), wk) /\
        graphs wk = graphs w /\
        writes wk = writes w /\
        lookup_node wk node = Some n /\
        hooks wk !! h =
          Some (mkHook (VTensor d data rg) node (i - Z.of_nat (length vs)) true)) /\
   (forall vs v later, Z.of_nat (length vs) = i ->
      exists wk w1 r w2 wc,
        occurrences h vs w0 = (Ok (none vs), wk) /\
        Node.set_value node v wk = (Ok tt, w1) /\
        node_value <$> lookup_node w1 node = Some v /\
        writes w1 = writes w ++ [(node, v)] /\
        (if has_listener n then SwapProtocol.get_swap (fst node) v else ret v) w1
          = (Ok r, w2) /\
        occurrence h v wk = (Ok r, wc) /\
        graphs wc = graphs w2 /\
        writes wc = writes w2 /\
        hooks wc !! h = Some (mkHook (VTensor d data rg) node (-1) false) /\
        occurrences h later wc = (Ok (none later), wc) /\
        occurrences h (vs ++ v :: later) w0 = (Ok (none vs ++ r :: none later), wc))).
Proof.
  intros Hn Hargs Hi Hsw h w0 none.
  assert (Hargs' : map (fun x => util.apply x (value_of w) is_node) (node_args n) =
                   VTensor d data rg :: VInt i :: more_args).
  { rewrite <- Hargs. apply map_ext. intros x. apply apply_value_of_real. }
  split.
  { intros ->. unfold GradProtocol.execute, bind. rewrite (prepare_inputs_ok _ _ _ Hn).
    simpl. rewrite Hargs'. reflexivity. }
  intros ->.
  set (e0 := mkHook (VTensor d data true) node i true).
  assert (He0 : hooks w0 !! h = Some e0).
  { unfold w0, h. simpl. by apply list_lookup_middle. }
  split; [|split].
  - unfold GradProtocol.execute, bind. rewrite (prepare_inputs_ok _ _ _ Hn). simpl.
    rewrite Hargs'. reflexivity.
  - intros vs Hlen.
    eexists. split; [exact (occurrences_counting_store h vs w0 e0 He0 eq_refl Hlen)|].
    split; [done|]. split; [done|]. split; [exact Hn|].
    simpl. apply list_lookup_insert_eq. by apply lookup_lt_Some with e0.
  - intros vs v later Hlen.
    pose proof (occurrences_counting_store h vs w0 e0 He0 eq_refl) as Ho.
    simpl in Ho. rewrite Hlen, Z.sub_diag in Ho. specialize (Ho ltac:(lia)).
    set (ek := mkHook (VTensor d data true) node 0 true) in Ho.
    set (wk := store_hook h ek w0) in Ho.
    assert (Hek : hooks wk !! h = Some ek).
    { unfold wk. simpl. apply list_lookup_insert_eq. by apply lookup_lt_Some with e0. }
    assert (Hnk : lookup_node wk node = Some n) by exact Hn.
    set (w1 := store_node node (with_value n v) wk).
    assert (Hset : Node.set_value node v wk = (Ok tt, w1)) by (by apply set_value_ok).
    assert (Hn1 : lookup_node w1 node = Some (with_value n v)).
    { by apply lookup_store_node_eq with n. }
    assert (Hconsult : exists r w2,
               (if has_listener n then SwapProtocol.get_swap (fst node) v else ret v) w1
               = (Ok r, w2)).
    { unfold has_listener. destruct (node_listeners n) as [|l ls] eqn:El.
      - by exists v, w1.
      - destruct Hsw as [|Hsw]; [done|]. apply get_swap_ready.
        apply swap_ready_store_value; [exact Hnk|].
        by apply (swap_ready_graphs w wk). }
    destruct Hconsult as (r & w2 & Hconsult).
    set (wc := store_hook h (mkHook (VTensor d data true) node (-1) false) w2).
    assert (Hcc : capture_consult node v wk = (Ok r, w2)).
    { unfold capture_consult, bind. rewrite Hset.
      unfold Node.attached, bind. rewrite (get_node_ok _ _ _ Hn1). unfold ret.
      exact Hconsult. }
    assert (Hocc : occurrence h v wk = (Ok r, wc)).
    { unfold occurrence, bind. rewrite (get_hook_ok _ _ _ Hek). simpl.
      rewrite (grad_capture wk h ek v Hek eq_refl). simpl. by rewrite Hcc. }
    assert (Hh2 : hooks w2 = hooks wk).
    { pose proof (keeps_hooks_capture_consult node v wk) as Hk.
      by rewrite Hcc in Hk. }
    assert (Hec : hooks wc !! h = Some (mkHook (VTensor d data true) node (-1) false)).
    { unfold wc. simpl. apply list_lookup_insert_eq. rewrite Hh2.
      by apply lookup_lt_Some with ek. }
    assert (Hlater : forall l, occurrences h l wc = (Ok (none l), wc)).
    { intros l.
      by apply occurrences_unregistered with (mkHook (VTensor d data true) node (-1) false). }
    exists wk, w1, r, w2, wc.
    split; [exact Ho|]. split; [exact Hset|]. split; [by rewrite Hn1|].
    split; [done|].
    split; [exact Hconsult|]. split; [exact Hocc|]. split; [done|]. split; [done|].
    split; [exact Hec|]. split; [apply Hlater|].
    rewrite (occurrences_app h vs w0 (none vs) wk (v :: later) Ho).
    simpl. unfold bind. rewrite Hocc, Hlater. reflexivity.
Qed.

(** The scenario of the specification: counter 1, three occurrences. *)
Lemma grad_callback_captures_once_witness :
  exists wc,
    GradProtocol.execute (7, "grad_0") grad_world =
      (Ok tt, MkWorld (graphs grad_world) [mkHook (VTensor "cpu" 3 true) (7, "grad_0") 1 true]
                      []) /\
    occurrences 0 [VTensor "cpu" 10 false; VTensor "cpu" 20 false; VTensor "cpu" 30 false]
      (MkWorld (graphs grad_world) [mkHook (VTensor "cpu" 3 true) (7, "grad_0") 1 true] [])
    = (Ok [VNone; VTensor "cpu" 20 false; VNone], wc) /\
    node_value <$> lookup_node wc (7, "grad_0") = Some (VTensor "cpu" 20 false) /\
    writes wc = [((7, "grad_0"), VTensor "cpu" 20 false)].
Proof.
  destruct (grad_callback_captures_once grad_world (7, "grad_0") grad_0 "cpu" 3 true 1 []
              eq_refl eq_refl ltac:(lia) (or_introl eq_refl)) as (_ & H).
  destruct (H eq_refl) as (Hex & _ & Hrun).
  destruct (Hrun [VTensor "cpu" 10 false] (VTensor "cpu" 20 false) [VTensor "cpu" 30 false]
              eq_refl)
    as (wk & w1 & r & w2 & wc & _ & Hset & Hn1 & Hw1 & Hc & _ & Hg & Hwc & _ & _ & Hall).
  simpl in Hc. injection Hc as <- <-.
  exists wc. split; [exact Hex|]. split; [exact Hall|]. split.
  - by rewrite (lookup_node_graphs w1 wc _ Hg).
  - by rewrite Hwc, Hw1.
Defined.

(** C10. Once the CAPTURE branch of the closure has run to its end, the
    counter is -1 and the callback is unregistered; were the closure called
    again all the same, any number of times, each call would only decrement
    the counter, which therefore never is 0 again, return no replacement and
    leave every graph, hence the node's value, as it is. *)
Theorem grad_callback_inert_after_capture (w : World) (h : nat) (e : GradHook)
    (v r : Value) (wc : World) :
  hooks w !! h = Some e ->
  hook_backward_idx e = 0 ->
  GradProtocol.grad h v w = (Ok r, wc) ->
  hooks wc !! h = Some (mkHook (hook_tensor e) (hook_node e) (-1) false) /\
  forall vs, exists w',
    calls h vs wc = (Ok (map (fun _ => VNone) vs), w') /\
    graphs w' = graphs wc /\
    (forall node, lookup_node w' node = lookup_node wc node) /\
    hooks w' !! h =
      Some (mkHook (hook_tensor e) (hook_node e) (-1 - Z.of_nat (length vs)) false) /\
    -1 - Z.of_nat (length vs) <> 0.
Proof.
  intros He Hi Hgrad. rewrite (grad_capture w h e v He Hi) in Hgrad.
  pose proof (keeps_hooks_capture_consult (hook_node e) v w) as Hk.
  destruct (capture_consult (hook_node e) v w) as [[r'|x] w2]; [|done].
  injection Hgrad as <- <-. simpl in Hk.
  set (ec := mkHook (hook_tensor e) (hook_node e) (-1) false).
  assert (Hec : hooks (store_hook h ec w2) !! h = Some ec).
  { simpl. apply list_lookup_insert_eq. rewrite Hk. by apply lookup_lt_Some with e. }
  split; [exact Hec|].
  intros vs.
  destruct (calls_negative h vs (store_hook h ec w2) ec Hec) as (w' & Hc & Hg & Hh);
    [simpl; lia|].
  exists w'. split; [exact Hc|]. split; [exact Hg|]. split.
  - intros node. by apply lookup_node_graphs.
  - split; [|lia]. rewrite Hh. simpl. rewrite list_insert_insert_eq.
    apply list_lookup_insert_eq. rewrite Hk. by apply lookup_lt_Some with e.
Qed.

Lemma grad_callback_inert_after_capture_witness :
  let w := mkWorld (graphs grad_world) [mkHook (VTensor "cpu" 3 true) (7, "grad_0") 0 true] in
  let wc := store_hook 0 (mkHook (VTensor "cpu" 3 true) (7, "grad_0") (-1) false)
              (store_node (7, "grad_0") (with_value grad_0 (VTensor "cpu" 20 true)) w) in
  exists w',
    calls 0 [VTensor "cpu" 30 true; VTensor "cpu" 40 true] wc = (Ok [VNone; VNone], w') /\
    graphs w' = graphs wc.
Proof.
  intros w wc.
  destruct (grad_callback_inert_after_capture w 0
              (mkHook (VTensor "cpu" 3 true) (7, "grad_0") 0 true)
              (VTensor "cpu" 20 true) (VTensor "cpu" 20 true) wc eq_refl eq_refl eq_refl) as [_ H].
  destruct (H [VTensor "cpu" 30 true; VTensor "cpu" 40 true]) as (w' & Hc & Hg & _).
  exists w'. split; [exact Hc|exact Hg].
Defined.

(** ** Further properties of the protocols *)

(** X1. Registration keeps every entry under its protocol's own name, the
    later of two registrations under one name is the one that stays, and the
    registry built by the five decorated classes has exactly their five
    names. *)
Theorem registry_names_consistent (forward : Forward) :
  (forall p registry, registry_ok registry -> registry_ok (register_protocol p registry)) /\
  (forall p q registry,
     protocol_name p = protocol_name q ->
     register_protocol q (register_protocol p registry) = register_protocol q registry) /\
  registry_ok (PROTOCOLS forward) /\
  dom (PROTOCOLS forward) = ({[ "module"; "lock"; "grad"; "swap"; "bridge" ]} : gset string).
Proof.
  assert (Hstep : forall p registry,
             registry_ok registry -> registry_ok (register_protocol p registry)).
  { intros p registry Hok key q. unfold register_protocol.
    destruct (decide (protocol_name p = key)) as [<-|Hne].
    - rewrite lookup_insert_eq. by intros [= <-].
    - rewrite lookup_insert_ne by done. apply Hok. }
  split; [exact Hstep|]. split; [|split].
  - intros p q registry Hpq. unfold register_protocol. rewrite Hpq.
    apply insert_insert_eq.
  - unfold PROTOCOLS. repeat apply Hstep. intros key p. by rewrite lookup_empty.
  - unfold PROTOCOLS, register_protocol. simpl.
    rewrite !dom_insert_L, dom_empty_L. set_solver.
Qed.

Lemma registry_names_consistent_witness :
  registry_ok (register_protocol (mkProtocol "lock" LockProtocol.execute) ∅).
Proof.
  apply (registry_names_consistent example_forward).
  intros key p. by rewrite lookup_empty.
Defined.

(** X2. [set_module] then [get_module] gives back the module that was set,
    whatever was stored before; the nodes and every other attachment of the
    graph stay as they were. *)
Theorem set_get_module_roundtrip (w : World) (gid : Z) (a : gmap string Value)
    (module : Value) :
  graph_attachments w gid = Some a ->
  let w' := store_attachment gid "nnsight_root_module" module w in
  ApplyModuleProtocol.set_module gid module w = (Ok tt, w') /\
  ApplyModuleProtocol.get_module gid w' = (Ok module, w') /\
  graph_attachments w' gid = Some (<["nnsight_root_module" := module]> a) /\
  (forall key, key <> "nnsight_root_module" ->
     (<["nnsight_root_module" := module]> a) !! key = a !! key) /\
  (forall r, lookup_node w' r = lookup_node w r) /\
  hooks w' = hooks w.
Proof.
  intros Ha w'.
  assert (Ha' : graph_attachments w' gid = Some (<["nnsight_root_module" := module]> a))
    by (by apply attachments_store_attachment_eq).
  split; [by apply attachments_setitem_ok with a|]. split.
  { apply attachments_getitem_ok with (<["nnsight_root_module" := module]> a); [done|].
    by rewrite lookup_insert_eq. }
  split; [exact Ha'|]. split.
  { intros key Hkey. by rewrite lookup_insert_ne. }
  split; [|done].
  intros r. apply lookup_store_attachment.
Qed.

Lemma set_get_module_roundtrip_witness :
  let w' := store_attachment 1 "nnsight_root_module" example_root example_world in
  ApplyModuleProtocol.get_module 1 w' = (Ok example_root, w').
Proof.
  intros w'.
  apply (set_get_module_roundtrip example_world 1 ∅ example_root eq_refl).
Defined.

(** X3. [has_bridge] answers whether the key is among the attachments, and
    [get_bridge] returns a directory exactly when it answers yes; after
    [set_bridge], [has_bridge] is true and [get_bridge] returns what was
    set. *)
Theorem bridge_accessors (w : World) (gid : Z) (a : gmap string Value) (bridge : Value) :
  graph_attachments w gid = Some a ->
  let w' := store_attachment gid "nnsight_bridge" bridge w in
  BridgeProtocol.has_bridge gid w =
    (Ok (bool_decide (is_Some (a !! "nnsight_bridge"))), w) /\
  (forall b, a !! "nnsight_bridge" = Some b <-> BridgeProtocol.get_bridge gid w = (Ok b, w)) /\
  BridgeProtocol.set_bridge gid bridge w = (Ok tt, w') /\
  BridgeProtocol.has_bridge gid w' = (Ok true, w') /\
  BridgeProtocol.get_bridge gid w' = (Ok bridge, w') /\
  (forall r, lookup_node w' r = lookup_node w r).
Proof.
  intros Ha w'.
  assert (Hhas : forall w0 a0, graph_attachments w0 gid = Some a0 ->
             BridgeProtocol.has_bridge gid w0 =
               (Ok (bool_decide (is_Some (a0 !! "nnsight_bridge"))), w0)).
  { intros w0 a0 Ha0. unfold BridgeProtocol.has_bridge, bind.
    unfold graph_attachments in Ha0.
    destruct (graphs w0 !! gid) as [g|] eqn:Hg; simpl in Ha0; [|done].
    injection Ha0 as <-. by rewrite (get_graph_ok _ _ _ Hg). }
  assert (Ha' : graph_attachments w' gid = Some (<["nnsight_bridge" := bridge]> a))
    by (by apply attachments_store_attachment_eq).
  split; [by apply Hhas|]. split.
  { intros b. split.
    - intros Hb. by apply get_bridge_ok with a.
    - intros Hget. destruct (a !! "nnsight_bridge") as [b'|] eqn:Hk.
      + rewrite (get_bridge_ok _ _ _ _ Ha Hk) in Hget. by injection Hget as <-.
      + unfold BridgeProtocol.get_bridge, bind in Hget. rewrite (Hhas w a Ha) in Hget.
        unfold ret in Hget.
        assert (Hm : attachments_getitem gid BridgeProtocol.attachment_name w =
                     (Raise (KeyError (VStr "nnsight_bridge")), w))
          by (by apply attachments_getitem_missing with a).
        destruct (negb _); rewrite Hm in Hget; discriminate. }
  split; [by apply attachments_setitem_ok with a|]. split.
  { rewrite (Hhas w' _ Ha'). rewrite lookup_insert_eq. by rewrite bool_decide_true. }
  split.
  { apply get_bridge_ok with (<["nnsight_bridge" := bridge]> a); [done|].
    by rewrite lookup_insert_eq. }
  intros r. apply lookup_store_attachment.
Qed.

Lemma bridge_accessors_witness :
  BridgeProtocol.has_bridge 1 example_world = (Ok false, example_world) /\
  BridgeProtocol.get_bridge 1
    (store_attachment 1 "nnsight_bridge" (VBridge [1] false) example_world) =
    (Ok (VBridge [1] false),
     store_attachment 1 "nnsight_bridge" (VBridge [1] false) example_world).
Proof.
  destruct (bridge_accessors example_world 1 ∅ (VBridge [1] false) eq_refl)
    as (H1 & _ & _ & _ & H2 & _).
  split; [exact H1|exact H2].
Defined.

(** X4. [k] increments in a row advance the graph's backward counter by [k]
    (from 0 when it was absent) and touch nothing else; a grad node added
    afterwards carries the advanced counter as its second argument. *)
Theorem increments_then_add (w : World) (node : NodeRef) (n : Node)
    (a : gmap string Value) (i : Z) (k : nat) :
  lookup_node w node = Some n ->
  graph_attachments w (fst node) = Some a ->
  default (VInt 0) (a !! "nnsight_backward_idx") = VInt i ->
  exists w1 a1 r w2,
    increments k (fst node) w = (Ok tt, w1) /\
    graph_attachments w1 (fst node) = Some a1 /\
    default (VInt 0) (a1 !! "nnsight_backward_idx") = VInt (i + Z.of_nat k) /\
    (forall key, key <> "nnsight_backward_idx" -> a1 !! key = a !! key) /\
    (forall r', lookup_node w1 r' = lookup_node w r') /\
    GradProtocol.add node w1 = (Ok r, w2) /\
    lookup_node w2 r =
      Some (mkNode "grad" [VNode (fst node) (snd node); VInt (i + Z.of_nat k)] []
                   (node_proxy_value n) VEmpty []).
Proof.
  intros Hn Ha Hi.
  destruct (increments_spec k w (fst node) a i Ha Hi)
    as (w1 & a1 & Hk & Ha1 & Hd & Hother & Hnodes & _).
  assert (Hn1 : lookup_node w1 node = Some n) by (by rewrite Hnodes).
  pose proof Hn1 as Hn1'. apply lookup_node_Some in Hn1' as (g1 & Hg1 & _).
  destruct (create_spec w1 (fst node) g1 GradProtocol.name (node_proxy_value n)
              [VNode (fst node) (snd node); VInt (i + Z.of_nat k)] [] Hg1)
    as (w2 & Hc & Hl & _).
  eexists w1, a1, _, w2.
  split; [exact Hk|]. split; [exact Ha1|]. split; [exact Hd|].
  split; [exact Hother|]. split; [exact Hnodes|]. split; [|exact Hl].
  unfold GradProtocol.add, bind.
  rewrite (attachments_get_ok _ _ _ _ _ Ha1).
  unfold GradProtocol.attachment_name. rewrite Hd.
  rewrite (get_node_ok _ _ _ Hn1). exact Hc.
Qed.

Lemma increments_then_add_witness :
  exists w1 a1 r w2,
    increments 3 1 example_world = (Ok tt, w1) /\
    graph_attachments w1 1 = Some a1 /\
    default (VInt 0) (a1 !! "nnsight_backward_idx") = VInt (0 + Z.of_nat 3) /\
    (forall key, key <> "nnsight_backward_idx" -> a1 !! key = (∅ : gmap string Value) !! key) /\
    (forall r', lookup_node w1 r' = lookup_node example_world r') /\
    GradProtocol.add (1, "x_0") w1 = (Ok r, w2) /\
    lookup_node w2 r =
      Some (mkNode "grad" [VNode 1 "x_0"; VInt (0 + Z.of_nat 3)] [] (VTensor "meta" 0 true) VEmpty []).
Proof.
  apply (increments_then_add example_world (1, "x_0")
           (mkNode "x" [] [] (VTensor "meta" 0 true) (VTensor "cpu" 42 true) []) ∅ 0 3);
    reflexivity.
Defined.

(** X5. When [ApplyModuleProtocol.execute] raises it has written nothing: the
    node's value is as before.  It raises [ValueError] on a node without
    arguments (nothing to unpack the path from) and the [KeyError] of
    [get_module] when the graph has no root module. *)
Theorem module_execute_failures (forward : Forward) (w : World) (node : NodeRef) :
  (forall e w', ApplyModuleProtocol.execute forward node w = (Raise e, w') -> w' = w) /\
  (forall n, lookup_node w node = Some n -> node_args n = [] ->
     ApplyModuleProtocol.execute forward node w = (Raise ValueError, w)) /\
  (forall n a, lookup_node w node = Some n -> node_args n <> [] ->
     graph_attachments w (fst node) = Some a ->
     a !! "nnsight_root_module" = None ->
     ApplyModuleProtocol.execute forward node w =
       (Raise (KeyError (VStr "nnsight_root_module")), w)).
Proof.
  split; [|split].
  - intros e w'. apply (fails_clean_bind (Node.prepare_inputs node)).
    + apply reads_only_prepare_inputs.
    + intros inputs. destruct (fst inputs) as [|path rest].
      * apply fails_clean_reads_only, reads_only_raise.
      * apply fails_clean_bind; [apply reads_only_call_module|].
        intros output. apply fails_clean_set_value.
  - intros n Hn Hargs. unfold ApplyModuleProtocol.execute, bind.
    rewrite (prepare_inputs_ok _ _ _ Hn). simpl. by rewrite Hargs.
  - intros n a Hn Hargs Ha Hk. unfold ApplyModuleProtocol.execute, bind.
    rewrite (prepare_inputs_ok _ _ _ Hn). simpl.
    destruct (node_args n) as [|first others]; [done|]. simpl.
    unfold ApplyModuleProtocol.call_module, ApplyModuleProtocol.get_module,
      ApplyModuleProtocol.attachment_name, bind.
    by rewrite (attachments_getitem_missing _ _ _ _ Ha Hk).
Qed.

Lemma module_execute_failures_witness :
  ApplyModuleProtocol.execute example_forward (3, "module_0") (module_world false ∅) =
    (Raise (KeyError (VStr "nnsight_root_module")), module_world false ∅) /\
  ApplyModuleProtocol.execute example_forward (1, "x_0") example_world =
    (Raise ValueError, example_world).
Proof.
  split.
  - destruct (module_execute_failures example_forward (module_world false ∅)
                (3, "module_0")) as (_ & _ & H).
    apply (H module_0 ∅); [reflexivity|discriminate|reflexivity|reflexivity].
  - destruct (module_execute_failures example_forward example_world (1, "x_0"))
      as (_ & H & _).
    apply (H (mkNode "x" [] [] (VTensor "meta" 0 true) (VTensor "cpu" 42 true) [])); reflexivity.
Defined.

(** X7. Outside validation mode [ApplyModuleProtocol.add] calls nothing: it
    returns the same node and store whatever the modules compute and whether
    or not a root module is attached, it always succeeds, and it leaves the
    attachments, the callbacks and (listeners apart) every other node as
    they were. *)
Theorem add_without_validation (w : World) (gid : Z) (g : Graph) (module_path : Value)
    (args : list Value) (kwargs : list (string * Value)) :
  graphs w !! gid = Some g ->
  validate g = false ->
  (forall f1 f2,
     ApplyModuleProtocol.add f1 gid module_path args kwargs w =
     ApplyModuleProtocol.add f2 gid module_path args kwargs w) /\
  (forall f, exists w',
     ApplyModuleProtocol.add f gid module_path args kwargs w =
       (Ok (gid, next_name g "module"), w') /\
     hooks w' = hooks w /\
     (forall gid', graph_attachments w' gid' = graph_attachments w gid') /\
     (forall r n, r <> (gid, next_name g "module") -> lookup_node w r = Some n ->
        exists n', lookup_node w' r = Some n' /\ same_core n n')).
Proof.
  intros Hg Hv.
  assert (Hadd : forall f, ApplyModuleProtocol.add f gid module_path args kwargs w =
                           Graph.create gid "module" VEmpty (module_path :: args) kwargs w).
  { intros f. unfold ApplyModuleProtocol.add, bind.
    by rewrite (get_graph_ok _ _ _ Hg), Hv. }
  split.
  - intros f1 f2. by rewrite !Hadd.
  - intros f. rewrite Hadd.
    destruct (create_spec w gid g "module" VEmpty (module_path :: args) kwargs Hg)
      as (w' & Hc & _ & Hh & Hat).
    exists w'. split; [exact Hc|]. split; [exact Hh|]. split; [exact Hat|].
    intros r n Hr Hn.
    pose proof (create_frame w gid g "module" VEmpty (module_path :: args) kwargs r n
                  Hg Hr Hn) as Hfr.
    by rewrite Hc in Hfr.
Qed.

Lemma add_without_validation_witness :
  exists w',
    ApplyModuleProtocol.add example_forward 1 (VStr "layer1") [VNode 1 "x_0"] [] example_world =
      (Ok (1, next_name example_graph "module"), w') /\
    hooks w' = hooks example_world.
Proof.
  destruct (add_without_validation example_world 1 example_graph (VStr "layer1")
              [VNode 1 "x_0"] [] eq_refl eq_refl) as [_ H].
  destruct (H example_forward) as (w' & Hadd & Hh & _).
  exists w'. split; [exact Hadd|exact Hh].
Defined.

(** X8. The device lookup of a validating [add] never raises and never
    writes: it gives the device of the root module's first parameter when
    that is a tensor, and [None] when there is no root module or the root
    has no parameter.  Whatever it gives, the validating [add] then raises
    [NameError] and leaves the store as it was. *)
Theorem validation_device_lookup (forward : Forward) (w : World) (gid : Z) (g : Graph) :
  graphs w !! gid = Some g ->
  (exists device, ApplyModuleProtocol.resolve_device gid w = (Ok device, w)) /\
  (forall fwd d data rg ps attrs,
     attachments g !! "nnsight_root_module" =
       Some (VModule fwd (VTensor d data rg :: ps) attrs) ->
     ApplyModuleProtocol.resolve_device gid w = (Ok (Some d), w)) /\
  (attachments g !! "nnsight_root_module" = None ->
   ApplyModuleProtocol.resolve_device gid w = (Ok None, w)) /\
  (forall fwd attrs,
     attachments g !! "nnsight_root_module" = Some (VModule fwd [] attrs) ->
     ApplyModuleProtocol.resolve_device gid w = (Ok None, w)) /\
  (validate g = true ->
   forall module_path args kwargs,
     ApplyModuleProtocol.add forward gid module_path args kwargs w =
       (Raise (NameError "Node"), w)).
Proof.
  intros Hg.
  assert (Ha : graph_attachments w gid = Some (attachments g)).
  { unfold graph_attachments. by rewrite Hg. }
  assert (Hr : exists device, ApplyModuleProtocol.resolve_device gid w = (Ok device, w)).
  { unfold ApplyModuleProtocol.resolve_device, try_except.
    pose proof (device_of_root_pure gid w) as Hp.
    destruct (ApplyModuleProtocol.device_of_root gid w) as [[device|e] w1];
      simpl in Hp; subst w1; [by exists device|by exists None]. }
  split; [exact Hr|]. split; [|split; [|split]].
  - intros fwd d data rg ps attrs Hroot.
    unfold ApplyModuleProtocol.resolve_device, try_except,
      ApplyModuleProtocol.device_of_root, ApplyModuleProtocol.get_module,
      ApplyModuleProtocol.attachment_name, bind.
    by rewrite (attachments_getitem_ok _ _ _ _ _ Ha Hroot).
  - intros Hnone.
    unfold ApplyModuleProtocol.resolve_device, try_except,
      ApplyModuleProtocol.device_of_root, ApplyModuleProtocol.get_module,
      ApplyModuleProtocol.attachment_name, bind.
    by rewrite (attachments_getitem_missing _ _ _ _ Ha Hnone).
  - intros fwd attrs Hroot.
    unfold ApplyModuleProtocol.resolve_device, try_except,
      ApplyModuleProtocol.device_of_root, ApplyModuleProtocol.get_module,
      ApplyModuleProtocol.attachment_name, bind.
    by rewrite (attachments_getitem_ok _ _ _ _ _ Ha Hroot).
  - intros Hv module_path args kwargs. destruct Hr as (device & Hr).
    unfold ApplyModuleProtocol.add, bind.
    by rewrite (get_graph_ok _ _ _ Hg), Hv, Hr.
Qed.

Lemma validation_device_lookup_witness :
  let root := VModule 0 [VTensor "cuda" 0 true] [("layer1", VModule 7 [] [])] in
  let w := module_world true {[ "nnsight_root_module" := root ]} in
  ApplyModuleProtocol.resolve_device 3 w = (Ok (Some "cuda"), w) /\
  ApplyModuleProtocol.add example_forward 3 (VStr "layer1") [VNode 3 "x_0"] [] w =
    (Raise (NameError "Node"), w).
Proof.
  intros root w.
  destruct (validation_device_lookup example_forward w 3
              (module_graph true {[ "nnsight_root_module" := root ]}) eq_refl)
    as (_ & Hdev & _ & _ & Hadd).
  split.
  - apply (Hdev 0%nat "cuda" 0 true [] [("layer1", VModule 7 [] [])]). reflexivity.
  - apply Hadd. reflexivity.
Defined.

(** X6. When [BridgeProtocol.execute] raises it has written nothing: neither
    the bridge node's value nor the lock's.  It raises [ValueError] unless
    the node has exactly two arguments, the [KeyError] of the node lookup
    when the source graph has no node of the lock's name, and [IndexError]
    when the lock node has no argument. *)
Theorem bridge_execute_failures (w : World) (node : NodeRef) :
  (forall e w', BridgeProtocol.execute node w = (Raise e, w') -> w' = w) /\
  (forall n a bridge,
     lookup_node w node = Some n ->
     graph_attachments w (fst node) = Some a ->
     a !! "nnsight_bridge" = Some bridge ->
     (length (node_args n) <> 2%nat ->
      BridgeProtocol.execute node w = (Raise ValueError, w)) /\
     (forall ids release from_graph_id lock_name gs,
        bridge = VBridge ids release ->
        node_args n = [VInt from_graph_id; VStr lock_name] ->
        from_graph_id ∈ ids ->
        graphs w !! from_graph_id = Some gs ->
        (nodes gs !! lock_name = None ->
         BridgeProtocol.execute node w = (Raise (KeyError (VStr lock_name)), w)) /\
        (forall lock, nodes gs !! lock_name = Some lock -> node_args lock = [] ->
         BridgeProtocol.execute node w = (Raise IndexError, w)))).
Proof.
  split.
  - intros e w' H. unfold BridgeProtocol.execute in H.
    apply bind_reads_only_inv in H; [|apply reads_only_get_bridge].
    destruct H as [(bridge & _ & H)|(? & _ & _ & ->)]; [|done].
    apply bind_reads_only_inv in H; [|apply reads_only_get_node].
    destruct H as [(n & Hn & H)|(? & _ & _ & ->)]; [|done].
    apply get_node_inv in Hn.
    destruct (node_args n) as [|from_graph_id [|lock_name [|more]]];
      try (by injection H as _ <-).
    apply bind_reads_only_inv in H; [|apply reads_only_bridge_get_graph].
    destruct H as [(from_graph & Hfg & H)|(? & _ & _ & ->)]; [|done].
    apply bind_reads_only_inv in H; [|apply reads_only_nodes_getitem].
    destruct H as [(lock_node & Hlock & H)|(? & _ & _ & ->)]; [|done].
    apply nodes_getitem_inv in Hlock as [ln Hln].
    apply bind_reads_only_inv in H; [|apply reads_only_get_node].
    destruct H as [(ln' & _ & H)|(? & _ & _ & ->)]; [|done].
    apply bind_reads_only_inv in H; [|apply reads_only_getitem].
    destruct H as [(value_node & _ & H)|(? & _ & _ & ->)]; [|done].
    destruct value_node as [| | | | | |vgid vname| | |]; try (by injection H as _ <-).
    apply bind_reads_only_inv in H; [|apply reads_only_get_node].
    destruct H as [(vn & _ & H)|(? & _ & _ & ->)]; [|done].
    unfold bind in H. rewrite (set_value_ok _ _ _ _ Hn) in H.
    destruct bridge as [| | | | | | | | |ids release]; try done.
    simpl in H. destruct release; [|done].
    set (w1 := store_node node (with_value n (node_value vn)) w) in H.
    assert (Hl1 : is_Some (lookup_node w1 lock_node)).
    { unfold w1. rewrite (lookup_store_node _ _ _ _ _ Hn). by case_decide. }
    destruct Hl1 as [l1 Hl1]. by rewrite (set_value_ok _ _ _ _ Hl1) in H.
  - intros n a bridge Hn Ha Hk. split.
    + intros Hlen. unfold BridgeProtocol.execute, bind.
      rewrite (get_bridge_ok _ _ _ _ Ha Hk), (get_node_ok _ _ _ Hn).
      by destruct (node_args n) as [|x [|y [|z more]]].
    + intros ids release fid lname gs -> Hargs Hin Hgs. split.
      * intros Hnone. unfold BridgeProtocol.execute, bind.
        rewrite (get_bridge_ok _ _ _ _ Ha Hk), (get_node_ok _ _ _ Hn), Hargs.
        unfold Bridge.get_graph, bind. rewrite decide_True by done.
        rewrite (get_graph_ok _ _ _ Hgs). unfold ret.
        unfold BridgeProtocol.nodes_getitem, bind.
        by rewrite (get_graph_ok _ _ _ Hgs), Hnone.
      * intros lock Hlock Hnoargs. unfold BridgeProtocol.execute, bind.
        rewrite (get_bridge_ok _ _ _ _ Ha Hk), (get_node_ok _ _ _ Hn), Hargs.
        unfold Bridge.get_graph, bind. rewrite decide_True by done.
        rewrite (get_graph_ok _ _ _ Hgs). unfold ret.
        unfold BridgeProtocol.nodes_getitem, bind.
        rewrite (get_graph_ok _ _ _ Hgs), Hlock. unfold ret.
        assert (Hl : lookup_node w (fid, lname) = Some lock).
        { apply lookup_node_Some. by exists gs. }
        rewrite (get_node_ok _ _ _ Hl), Hnoargs. reflexivity.
Qed.

Lemma bridge_execute_failures_witness :
  BridgeProtocol.execute (6, "bridge_0") (bridge_world_args [VInt 5; VStr "lock_9"]) =
    (Raise (KeyError (VStr "lock_9")), bridge_world_args [VInt 5; VStr "lock_9"]) /\
  BridgeProtocol.execute (6, "bridge_0") (bridge_world_args [VInt 5]) =
    (Raise ValueError, bridge_world_args [VInt 5]).
Proof.
  split.
  - destruct (bridge_execute_failures (bridge_world_args [VInt 5; VStr "lock_9"])
                (6, "bridge_0")) as [_ H].
    destruct (H (mkNode "bridge" [VInt 5; VStr "lock_9"] [] (VTensor "meta" 0 true) VEmpty [])
                {[ "nnsight_bridge" := VBridge [5; 6] true ]} (VBridge [5; 6] true)
                eq_refl eq_refl eq_refl) as [_ H'].
    destruct (H' [5; 6] true 5 "lock_9" bridge_source eq_refl eq_refl) as [Hmiss _].
    + apply list_elem_of_In. simpl. auto.
    + reflexivity.
    + apply Hmiss. reflexivity.
  - destruct (bridge_execute_failures (bridge_world_args [VInt 5]) (6, "bridge_0"))
      as [_ H].
    destruct (H (mkNode "bridge" [VInt 5] [] (VTensor "meta" 0 true) VEmpty [])
                {[ "nnsight_bridge" := VBridge [5; 6] true ]} (VBridge [5; 6] true)
                eq_refl eq_refl eq_refl) as [Hlen _].
    apply Hlen. simpl. lia.
Defined.



(** X10. A swap node that executes while it is itself the graph's active
    swap marks itself [False] and stays the active swap: the next
    consultation still returns its replacement and sets its value to
    [True]. *)
Theorem swap_reexecute_active (w : World) (gid : Z) (name : string)
    (a : gmap string Value) (s : Node) (stored v : Value) :
  graph_attachments w gid = Some a ->
  a !! "nnsight_swap" = Some (VNode gid name) ->
  lookup_node w (gid, name) = Some s ->
  nth_error (node_args s) 1 = Some stored ->
  exists w1 w2 a1,
    SwapProtocol.execute (gid, name) w = (Ok tt, w1) /\
    node_value <$> lookup_node w1 (gid, name) = Some (VBool false) /\
    graph_attachments w1 gid = Some a1 /\
    a1 !! "nnsight_swap" = Some (VNode gid name) /\
    SwapProtocol.get_swap gid v w1 =
      (Ok (SwapProtocol.relocate (SwapProtocol.recorded_device v)
             (util.apply stored (value_of w1) is_node)), w2) /\
    node_value <$> lookup_node w2 (gid, name) = Some (VBool true).
Proof.
  intros Ha Hk Hs Hst.
  set (w1 := store_attachment gid "nnsight_swap" (VNode gid name)
               (store_node (gid, name) (with_value s (VBool false)) w)).
  assert (Hs1 : lookup_node w1 (gid, name) = Some (with_value s (VBool false))).
  { unfold w1. rewrite lookup_store_attachment. by apply lookup_store_node_eq with s. }
  assert (Ha1 : graph_attachments w1 gid = Some (<["nnsight_swap" := VNode gid name]> a)).
  { apply attachments_store_attachment_eq. by rewrite attachments_store_node. }
  exists w1. eexists. exists (<["nnsight_swap" := VNode gid name]> a).
  split; [exact (swap_execute_active w (gid, name) a gid name s Ha Hk Hs)|].
  split; [by rewrite Hs1|]. split; [exact Ha1|].
  split; [by rewrite lookup_insert_eq|]. split.
  { refine (get_swap_active w1 gid _ v gid name _ stored Ha1 _ Hs1 Hst).
    by rewrite lookup_insert_eq. }
  rewrite lookup_store_attachment. by erewrite lookup_store_node_eq.
Qed.

Lemma swap_reexecute_active_witness :
  exists w1 w2 a1,
    SwapProtocol.execute (2, "swap_0")
      (swap_world {[ "nnsight_swap" := VNode 2 "swap_0" ]}) = (Ok tt, w1) /\
    node_value <$> lookup_node w1 (2, "swap_0") = Some (VBool false) /\
    graph_attachments w1 2 = Some a1 /\
    a1 !! "nnsight_swap" = Some (VNode 2 "swap_0") /\
    SwapProtocol.get_swap 2 (VInt 1) w1 =
      (Ok (SwapProtocol.relocate (SwapProtocol.recorded_device (VInt 1))
             (util.apply (VInt 5) (value_of w1) is_node)), w2) /\
    node_value <$> lookup_node w2 (2, "swap_0") = Some (VBool true).
Proof.
  apply (swap_reexecute_active (swap_world {[ "nnsight_swap" := VNode 2 "swap_0" ]}) 2
           "swap_0" {[ "nnsight_swap" := VNode 2 "swap_0" ]} swap_0 (VInt 5) (VInt 1));
    reflexivity.
Defined.


(** X12. The closure of one grad node only writes its own cells: calling it,
    whatever it returns or raises, leaves the counter and the registration
    of every other callback as they were and registers none. *)
Theorem grad_touches_own_cell (w : World) (h : nat) (v : Value) :
  length (hooks (snd (GradProtocol.grad h v w))) = length (hooks w) /\
  forall h', h' <> h -> hooks (snd (GradProtocol.grad h v w)) !! h' = hooks w !! h'.
Proof.
  destruct (hooks w !! h) as [e|] eqn:He.
  2:{ unfold GradProtocol.grad, bind, get_hook. rewrite He. by split. }
  destruct (decide (hook_backward_idx e = 0)) as [Hi|Hi].
  - rewrite (grad_capture w h e v He Hi).
    pose proof (keeps_hooks_capture_consult (hook_node e) v w) as Hk.
    destruct (capture_consult (hook_node e) v w) as [[r|x] w2]; simpl in *.
    + rewrite length_insert, Hk. split; [done|].
      intros h' Hne. by rewrite list_lookup_insert_ne.
    + rewrite Hk. by split.
  - rewrite (grad_counting w h e v He Hi). simpl. rewrite length_insert.
    split; [done|]. intros h' Hne. by rewrite list_lookup_insert_ne.
Qed.

Lemma grad_touches_own_cell_witness :
  let w := mkWorld (graphs grad_world)
             [mkHook (VTensor "cpu" 3 true) (7, "grad_0") 0 true;
              mkHook (VTensor "cpu" 3 true) (7, "grad_0") 2 true] in
  hooks (snd (GradProtocol.grad 0 (VTensor "cpu" 20 true) w)) !! 1%nat =
    Some (mkHook (VTensor "cpu" 3 true) (7, "grad_0") 2 true).
Proof.
  intros w.
  destruct (grad_touches_own_cell w 0 (VTensor "cpu" 20 true)) as [_ H].
  rewrite (H 1%nat); [reflexivity|discriminate].
Defined.

(** X13. [GradProtocol.execute] never writes to a graph: it sets no value,
    the node's value only arrives through the callback.  On a node with
    fewer than two arguments it raises [IndexError], and when the first
    argument does not resolve to a tensor the [AttributeError] of
    [register_hook]; in both cases no callback is registered. *)
Theorem grad_execute_registers_only (w : World) (node : NodeRef) :
  graphs (snd (GradProtocol.execute node w)) = graphs w /\
  (forall n, lookup_node w node = Some n ->
     (length (node_args n) < 2)%nat ->
     GradProtocol.execute node w = (Raise IndexError, w)) /\
  (forall n x i rest, lookup_node w node = Some n ->
     map (fun y => util.apply y (value_of w) is_node) (node_args n) = x :: VInt i :: rest ->
     is_tensor x = false ->
     GradProtocol.execute node w = (Raise (AttributeError "register_hook"), w)).
Proof.
  split; [|split].
  - unfold GradProtocol.execute, bind.
    pose proof (reads_only_prepare_inputs node w) as Hp.
    destruct (Node.prepare_inputs node w) as [[inputs|e] w1]; simpl in Hp; subst w1; [|done].
    destruct (fst inputs) as [|tensor [|idx rest]]; try reflexivity.
    destruct idx; try reflexivity.
    destruct tensor as [| | | | |dev data rg| | | |]; try reflexivity.
    by destruct rg.
  - intros n Hn Hlen. unfold GradProtocol.execute, bind.
    rewrite (prepare_inputs_ok _ _ _ Hn). simpl.
    destruct (node_args n) as [|x [|y more]]; simpl in *; try done. lia.
  - intros n x i rest Hn Hargs Hx. unfold GradProtocol.execute, bind.
    rewrite (prepare_inputs_ok _ _ _ Hn). simpl. rewrite Hargs. simpl.
    by destruct x.
Qed.

Lemma grad_execute_registers_only_witness :
  GradProtocol.execute (1, "x_0") example_world = (Raise IndexError, example_world) /\
  GradProtocol.execute (2, "swap_0") (swap_world ∅) =
    (Raise (AttributeError "register_hook"), swap_world ∅).
Proof.
  split.
  - destruct (grad_execute_registers_only example_world (1, "x_0")) as (_ & H & _).
    apply (H (mkNode "x" [] [] (VTensor "meta" 0 true) (VTensor "cpu" 42 true) []));
      [reflexivity|simpl; lia].
  - destruct (grad_execute_registers_only (swap_world ∅) (2, "swap_0")) as (_ & _ & H).
    apply (H swap_0 VEmpty 5 []); reflexivity.
Defined.

(** X14. A bridge from end to end.  In a store where the target graph has a
    directory that knows the source graph, and the names the two new nodes
    get are free, [BridgeProtocol.add] followed by the execution of the
    bridge node it returns gives that node the source node's value, with the
    source node's proxy value as its proxy value; the lock's value is [None]
    if the directory releases and still unset otherwise, and the only calls
    of [set_value] are the one on the bridge node followed, if the directory
    releases, by the one on the lock. *)
Theorem bridge_add_then_execute (w : World) (from_node to_node : NodeRef)
    (nf : Node) (gf gt : Graph) (ids : list Z) (release : bool) :
  lookup_node w from_node = Some nf ->
  graphs w !! fst from_node = Some gf ->
  graphs w !! fst to_node = Some gt ->
  attachments gt !! "nnsight_bridge" = Some (VBridge ids release) ->
  fst from_node ∈ ids ->
  snd from_node <> next_name gf "lock" ->
  from_node <> (fst to_node, next_name gt "bridge") ->
  let lock := (fst from_node, next_name gf "lock") in
  let b := (fst to_node, next_name gt "bridge") in
  exists w1 w2,
    BridgeProtocol.add from_node to_node w = (Ok b, w1) /\
    BridgeProtocol.execute b w1 = (Ok tt, w2) /\
    node_value <$> lookup_node w2 b = Some (node_value nf) /\
    node_proxy_value <$> lookup_node w2 b = Some (node_proxy_value nf) /\
    node_value <$> lookup_node w2 lock = Some (if release then VNone else VEmpty) /\
    writes w2 =
      writes w ++ (b, node_value nf) :: (if release then [(lock, VNone)] else []).
Proof.
  intros Hnf Hgf Hgt Hbr Hin Hfresh Hfresh' lock b.
  destruct from_node as [fgid fname]. simpl in *.
  assert (Hfl : (fgid, fname) <> lock) by (unfold lock; congruence).
  (* the lock *)
  destruct (create_spec w fgid gf "lock" VNone [VNode fgid fname] [] Hgf)
    as (wl & Hc1 & Hl1 & _ & Hat1).
  change (lookup_node wl lock = Some (mkNode "lock" [VNode fgid fname] [] VNone VEmpty []))
    in Hl1.
  change (Graph.create fgid "lock" VNone [VNode fgid fname] [] w = (Ok lock, wl)) in Hc1.
  destruct (create_frame w fgid gf "lock" VNone [VNode fgid fname] [] (fgid, fname) nf
              Hgf Hfl Hnf) as (nf1 & Hnf1 & Hcore).
  destruct (create_graphs w fgid gf "lock" VNone [VNode fgid fname] [] (fst to_node) gt
              Hgf Hgt) as (gt1 & Hgt1 & Hagt1 & Hidx1).
  rewrite Hc1 in Hnf1, Hgt1. cbn [snd] in Hnf1, Hgt1.
  assert (Hname : next_name gt1 "bridge" = next_name gt "bridge").
  { apply next_name_ext. by apply Hidx1. }
  (* the bridge node *)
  destruct (create_spec wl (fst to_node) gt1 "bridge" (node_proxy_value nf1)
              [VInt fgid; VStr (snd lock)] [] Hgt1) as (w1 & Hc2 & Hl2 & _ & Hat2).
  change (Graph.create (fst to_node) "bridge" (node_proxy_value nf1)
            [VInt fgid; VStr (snd lock)] [] wl =
          (Ok (fst to_node, next_name gt1 "bridge"), w1)) in Hc2.
  change (lookup_node w1 (fst to_node, next_name gt1 "bridge") =
          Some (mkNode "bridge" [VInt fgid; VStr (snd lock)] [] (node_proxy_value nf1)
                       VEmpty [])) in Hl2.
  rewrite Hname in Hc2, Hl2. fold b in Hc2, Hl2.
  assert (Hframe : forall r, r <> b -> lookup_node w1 r = lookup_node wl r).
  { intros r Hr.
    pose proof (create_plain_frame wl (fst to_node) gt1 "bridge" (node_proxy_value nf1)
                  [VInt fgid; VStr (snd lock)] [] r Hgt1 eq_refl) as Hfr.
    rewrite Hc2 in Hfr. apply Hfr.
    change (r <> (fst to_node, next_name gt1 "bridge")). by rewrite Hname. }
  assert (Hlb : lock <> b).
  { unfold lock, b, next_name. intros [= _ E]. }
  assert (Hbl : b <> lock) by congruence.
  assert (Hlock1 : lookup_node w1 lock =
                   Some (mkNode "lock" [VNode fgid fname] [] VNone VEmpty [])).
  { by rewrite Hframe. }
  assert (Hfrom1 : lookup_node w1 (fgid, fname) = Some nf1).
  { by rewrite Hframe. }
  assert (Ha1 : graph_attachments w1 (fst to_node) = Some (attachments gt)).
  { rewrite Hat2, Hat1. unfold graph_attachments. by rewrite Hgt. }
  destruct Hcore as (_ & _ & _ & Hpv & Hval).
  set (wb := store_node b (with_value (mkNode "bridge" [VInt fgid; VStr (snd lock)] []
                                              (node_proxy_value nf1) VEmpty [])
                                      (node_value nf1)) w1).
  exists w1.
  exists (if release
          then store_node lock (with_value (mkNode "lock" [VNode fgid fname] [] VNone VEmpty [])
                                           VNone) wb
          else wb).
  assert (Lb : lookup_node wb b = Some (with_value (mkNode "bridge" [VInt fgid; VStr (snd lock)] []
                                              (node_proxy_value nf1) VEmpty [])
                                      (node_value nf1))).
  { unfold wb. by erewrite lookup_store_node_eq. }
  assert (Ll : lookup_node wb lock =
               Some (mkNode "lock" [VNode fgid fname] [] VNone VEmpty [])).
  { unfold wb. by rewrite lookup_store_node_ne. }
  assert (Lf : lookup_node wb (fgid, fname) = Some nf1).
  { unfold wb. by rewrite lookup_store_node_ne. }
  split.
  { unfold BridgeProtocol.add, LockProtocol.add, Node.create, LockProtocol.name,
      BridgeProtocol.name, bind. cbn [fst snd].
    rewrite Hc1, (get_node_ok _ _ _ Hnf1). exact Hc2. }
  split.
  { exact (bridge_execute_ok w1 b _ (attachments gt) ids release fgid (snd lock) _
             fgid fname nf1 Hl2 Ha1 Hbr eq_refl Hin Hlock1 eq_refl Hfrom1 Hbl). }
  assert (Hw1 : writes w1 = writes w).
  { pose proof (create_writes (fst to_node) "bridge" (node_proxy_value nf1)
                  [VInt fgid; VStr (snd lock)] [] wl) as H2.
    pose proof (create_writes fgid "lock" VNone [VNode fgid fname] [] w) as H1.
    rewrite Hc2 in H2. rewrite Hc1 in H1. simpl in H1, H2. congruence. }
  destruct release.
  - rewrite (lookup_store_node_ne wb lock b) by done.
    rewrite (lookup_store_node_eq _ _ _ _ Ll), Lb. simpl.
    rewrite Hpv, Hval, Hw1. repeat split; try done. by rewrite <- app_assoc.
  - rewrite Lb, Ll. simpl. by rewrite Hpv, Hval, Hw1.
Qed.

Lemma bridge_add_then_execute_witness :
  exists w1 w2,
    BridgeProtocol.add (5, "x_0") (6, "bridge_0") (bridge_world true) =
      (Ok (6, "bridge_1"), w1) /\
    BridgeProtocol.execute (6, "bridge_1") w1 = (Ok tt, w2) /\
    node_value <$> lookup_node w2 (6, "bridge_1") = Some (VTensor "cpu" 42 true) /\
    node_value <$> lookup_node w2 (5, "lock_1") = Some VNone /\
    writes w2 = [((6, "bridge_1"), VTensor "cpu" 42 true); ((5, "lock_1"), VNone)].
Proof.
  destruct (bridge_add_then_execute (bridge_world true) (5, "x_0") (6, "bridge_0")
              (mkNode "x" [] [] (VTensor "meta" 0 true) (VTensor "cpu" 42 true) [(5, "lock_0")])
              bridge_source (bridge_target true) [5; 6] true eq_refl eq_refl eq_refl eq_refl)
    as (w1 & w2 & Hadd & Hex & Hv & _ & Hl & Hw).
  - apply list_elem_of_In. simpl. auto.
  - discriminate.
  - discriminate.
  - exists w1, w2. repeat split; assumption.
Defined.

(** X15. A grad node from end to end.  On a node whose value is a tensor that
    requires a gradient, in a graph whose backward counter is [i >= 0] (0
    when absent),
    [GradProtocol.add] followed by the execution of the node it returns
    registers a callback that, over any run of occurrences, returns nothing
    for the first [i], stores the gradient of occurrence [i+1] as the grad
    node's value and returns it unchanged, and returns nothing afterwards. *)
Theorem grad_add_then_backward (w : World) (node : NodeRef) (n : Node) (g : Graph)
    (d : string) (data : Z) (i : Z) :
  lookup_node w node = Some n ->
  node_value n = VTensor d data true ->
  graphs w !! fst node = Some g ->
  default (VInt 0) (attachments g !! "nnsight_backward_idx") = VInt i ->
  0 <= i ->
  snd node <> next_name g "grad" ->
  let r := (fst node, next_name g "grad") in
  let h := length (hooks w) in
  let none := map (fun _ : Value => VNone) in
  exists w1 w2,
    GradProtocol.add node w = (Ok r, w1) /\
    GradProtocol.execute r w1 = (Ok tt, w2) /\
    forall vs v later, Z.of_nat (length vs) = i ->
      exists wc,
        occurrences h (vs ++ v :: later) w2 = (Ok (none vs ++ v :: none later), wc) /\
        node_value <$> lookup_node wc r = Some v.
Proof.
  intros Hn Hval Hg Hd Hi Hfresh r h none.
  destruct node as [gid name]. simpl in *.
  assert (Hne : (gid, name) <> r) by (unfold r; congruence).
  destruct (create_spec w gid g "grad" (node_proxy_value n) [VNode gid name; VInt i] [] Hg)
    as (w1 & Hc & Hl & Hh & Hat).
  change (Graph.create gid "grad" (node_proxy_value n) [VNode gid name; VInt i] [] w =
          (Ok r, w1)) in Hc.
  change (lookup_node w1 r =
          Some (mkNode "grad" [VNode gid name; VInt i] [] (node_proxy_value n) VEmpty []))
    in Hl.
  destruct (create_frame w gid g "grad" (node_proxy_value n) [VNode gid name; VInt i] []
              (gid, name) n Hg Hne Hn) as (n1 & Hn1 & Hcore).
  rewrite Hc in Hn1. cbn [snd] in Hn1.
  destruct Hcore as (_ & _ & _ & _ & Hval1). rewrite Hval in Hval1.
  set (gn := mkNode "grad" [VNode gid name; VInt i] [] (node_proxy_value n) VEmpty []) in *.
  set (w2 := MkWorld (graphs w1) (hooks w1 ++ [mkHook (VTensor d data true) r i true])
                     (writes w1)).
  exists w1, w2. split; [|split].
  - unfold GradProtocol.add, GradProtocol.attachment_name, GradProtocol.name,
      Node.create, bind. cbn [fst snd].
    erewrite attachments_get_ok by (unfold graph_attachments; by rewrite Hg).
    rewrite Hd, (get_node_ok _ _ _ Hn). exact Hc.
  - unfold GradProtocol.execute, bind. rewrite (prepare_inputs_ok _ _ _ Hl).
    cbn. rewrite Hn1, Hval1. reflexivity.
  - intros vs v later Hlen.
    assert (He : hooks w2 !! h = Some (mkHook (VTensor d data true) r i true)).
    { unfold w2, h. simpl. rewrite <- Hh. by apply list_lookup_middle. }
    assert (Hl2 : lookup_node w2 r = Some gn) by exact Hl.
    destruct (grad_unattached_run w2 h (VTensor d data true) r gn i vs v later He Hl2 eq_refl Hlen)
      as (wc & Ho & Hgc & _).
    exists wc. split; [exact Ho|].
    rewrite !(lookup_node_graphs _ wc _ Hgc).
    by erewrite lookup_store_node_eq.
Qed.

Lemma grad_add_then_backward_witness :
  exists w1 w2 wc,
    GradProtocol.add (7, "t_0") grad_world = (Ok (7, "grad_1"), w1) /\
    GradProtocol.execute (7, "grad_1") w1 = (Ok tt, w2) /\
    occurrences 0 [VTensor "cpu" 10 true; VTensor "cpu" 20 true; VTensor "cpu" 30 true] w2 =
      (Ok [VNone; VTensor "cpu" 20 true; VNone], wc) /\
    node_value <$> lookup_node wc (7, "grad_1") = Some (VTensor "cpu" 20 true).
Proof.
  destruct (grad_add_then_backward grad_world (7, "t_0")
              (mkNode "t" [] [] (VTensor "meta" 0 true) (VTensor "cpu" 3 true) [(7, "grad_0")])
              grad_graph "cpu" 3 1 eq_refl eq_refl eq_refl eq_refl)
    as (w1 & w2 & Hadd & Hex & Hrun).
  - lia.
  - discriminate.
  - destruct (Hrun [VTensor "cpu" 10 true] (VTensor "cpu" 20 true) [VTensor "cpu" 30 true] eq_refl)
      as (wc & Ho & Hv).
    exists w1, w2, wc. repeat split; assumption.
Defined.

(** X16. Capture with an active swap.  When the callback of a grad node that
    has a listener fires with its counter at 0 while another node is the
    graph's active swap, the grad node's value becomes the incoming
    gradient, while what the callback returns is the swap's stored
    replacement, its nodes unwrapped in the store that already holds the
    captured gradient (a replacement that is the grad node itself thus
    unwraps to that gradient) and its tensors moved to the gradient's
    device; the swap node's value becomes [True], the attachment [None],
    and the callback is unregistered. *)
Theorem grad_capture_with_swap (w : World) (h : nat) (t : Value) (node : NodeRef)
    (n : Node) (a : gmap string Value) (sgid : Z) (sname : string) (s : Node)
    (stored v : Value) :
  hooks w !! h = Some (mkHook t node 0 true) ->
  lookup_node w node = Some n ->
  has_listener n = true ->
  graph_attachments w (fst node) = Some a ->
  a !! "nnsight_swap" = Some (VNode sgid sname) ->
  (sgid, sname) <> node ->
  lookup_node w (sgid, sname) = Some s ->
  nth_error (node_args s) 1 = Some stored ->
  let w1 := store_node node (with_value n v) w in
  let replacement :=
    SwapProtocol.relocate (SwapProtocol.recorded_device v)
      (util.apply stored (value_of w1) is_node) in
  exists wc,
    occurrence h v w = (Ok replacement, wc) /\
    node_value <$> lookup_node wc node = Some v /\
    node_value <$> lookup_node wc (sgid, sname) = Some (VBool true) /\
    graph_attachments wc (fst node) = Some (<["nnsight_swap" := VNone]> a) /\
    hooks wc !! h = Some (mkHook t node (-1) false) /\
    (stored = VNode (fst node) (snd node) ->
     replacement = SwapProtocol.relocate (SwapProtocol.recorded_device v) v) /\
    forall later, occurrence h later wc = (Ok VNone, wc).
Proof.
  intros He Hn Hatt Ha Hk Hne Hs Hst w1 replacement.
  assert (Hn1 : lookup_node w1 node = Some (with_value n v)).
  { by apply lookup_store_node_eq with n. }
  assert (Hs1 : lookup_node w1 (sgid, sname) = Some s).
  { unfold w1. by rewrite lookup_store_node_ne. }
  assert (Ha1 : graph_attachments w1 (fst node) = Some a).
  { unfold w1. by rewrite attachments_store_node. }
  set (w2 := store_attachment (fst node) "nnsight_swap" VNone
               (store_node (sgid, sname) (with_value s (VBool true)) w1)).
  assert (Hcc : capture_consult node v w = (Ok replacement, w2)).
  { unfold capture_consult, bind. rewrite (set_value_ok _ _ _ _ Hn). fold w1.
    unfold Node.attached, bind. rewrite (get_node_ok _ _ _ Hn1). unfold ret.
    change (has_listener (with_value n v)) with (has_listener n). rewrite Hatt.
    exact (get_swap_active w1 (fst node) a v sgid sname s stored Ha1 Hk Hs1 Hst). }
  set (wc := store_hook h (mkHook t node (-1) false) w2).
  assert (Hec : hooks wc !! h = Some (mkHook t node (-1) false)).
  { unfold wc. simpl. apply list_lookup_insert_eq.
    by apply lookup_lt_Some with (mkHook t node 0 true). }
  exists wc. split; [|split; [|split; [|split; [|split; [exact Hec|split]]]]].
  - unfold occurrence, bind. rewrite (get_hook_ok _ _ _ He). simpl.
    rewrite (grad_capture w h _ v He eq_refl). simpl. by rewrite Hcc.
  - change (node_value <$> lookup_node w2 node = Some v).
    unfold w2. rewrite lookup_store_attachment, lookup_store_node_ne by done.
    by rewrite Hn1.
  - change (node_value <$> lookup_node w2 (sgid, sname) = Some (VBool true)).
    unfold w2. rewrite lookup_store_attachment.
    by erewrite lookup_store_node_eq.
  - change (graph_attachments w2 (fst node) = Some (<["nnsight_swap" := VNone]> a)).
    apply attachments_store_attachment_eq. by rewrite attachments_store_node.
  - intros ->. unfold replacement. f_equal. cbn.
    destruct node as [gid name]. cbn in *. by rewrite Hn1.
  - intros later. unfold occurrence, bind. by rewrite (get_hook_ok _ _ _ Hec).
Qed.

Lemma grad_capture_with_swap_witness :
  exists wc,
    occurrence 0 (VTensor "cuda" 20 true) capture_world =
      (Ok (VList [VTensor "cuda" 20 true; VTensor "cuda" 1 true]), wc) /\
    node_value <$> lookup_node wc (8, "grad_0") = Some (VTensor "cuda" 20 true) /\
    node_value <$> lookup_node wc (8, "swap_0") = Some (VBool true).
Proof.
  destruct (grad_capture_with_swap capture_world 0 (VTensor "cuda" 3 true) (8, "grad_0")
              capture_grad {[ "nnsight_swap" := VNode 8 "swap_0" ]} 8 "swap_0" capture_swap
              (VList [VNode 8 "grad_0"; VTensor "cpu" 1 true]) (VTensor "cuda" 20 true)
              eq_refl eq_refl eq_refl eq_refl eq_refl)
    as (wc & Hocc & Hv & Hs & _).
  - discriminate.
  - reflexivity.
  - reflexivity.
  - exists wc. repeat split; assumption.
Defined.

(** X17. Adding a lock, grad or swap node on [node] only creates: when the
    new node's name is free, the call returns it, leaves [node] attached
    with its target, arguments, proxy value and value as they were, changes
    of every other node the listeners at most, and touches neither the
    attachments (the backward counter is read, not advanced) nor the
    registered callbacks. *)
Theorem adds_only_create (w : World) (node : NodeRef) (n : Node) (g : Graph)
    (value : Value) :
  lookup_node w node = Some n ->
  graphs w !! fst node = Some g ->
  (snd node <> next_name g "lock" ->
   only_creates w node n g "lock" (LockProtocol.add node)) /\
  (snd node <> next_name g "grad" ->
   only_creates w node n g "grad" (GradProtocol.add node)) /\
  (snd node <> next_name g "swap" ->
   only_creates w node n g "swap" (SwapProtocol.add node value)).
Proof.
  intros Hn Hg. split; [|split]; intros Hfresh.
  - by apply create_only_creates.
  - pose proof (create_only_creates w node n g "grad" (node_proxy_value n)
                  [default (VInt 0) (attachments g !! "nnsight_backward_idx")]
                  Hn Hg Hfresh) as (w' & n' & Hc & Hrest).
    exists w', n'. split; [|exact Hrest].
    unfold GradProtocol.add, GradProtocol.attachment_name, Node.create, bind.
    erewrite attachments_get_ok by (unfold graph_attachments; by rewrite Hg).
    rewrite (get_node_ok _ _ _ Hn). exact Hc.
  - by apply create_only_creates.
Qed.

Lemma adds_only_create_witness :
  only_creates example_world (1, "x_0")
    (mkNode "x" [] [] (VTensor "meta" 0 true) (VTensor "cpu" 42 true) []) example_graph "grad"
    (GradProtocol.add (1, "x_0")).
Proof.
  destruct (adds_only_create example_world (1, "x_0")
              (mkNode "x" [] [] (VTensor "meta" 0 true) (VTensor "cpu" 42 true) []) example_graph
              VNone eq_refl eq_refl) as (_ & H & _).
  apply H. discriminate.
Defined.

(** X18. When the input of a consultation has a tensor, every tensor of the
    replacement an active swap returns is on the device recorded from that
    input. *)
Theorem get_swap_result_on_input_device (w : World) (gid : Z) (a : gmap string Value)
    (v : Value) (sgid : Z) (sname : string) (s : Node) (stored : Value) (d : string) :
  graph_attachments w gid = Some a ->
  a !! "nnsight_swap" = Some (VNode sgid sname) ->
  lookup_node w (sgid, sname) = Some s ->
  nth_error (node_args s) 1 = Some stored ->
  SwapProtocol.recorded_device v = Some d ->
  exists r w',
    SwapProtocol.get_swap gid v w = (Ok r, w') /\
    Forall (on_device d) (util.visited r is_tensor).
Proof.
  intros Ha Hk Hs Hst Hd.
  eexists _, _. split.
  - exact (get_swap_active w gid a v sgid sname s stored Ha Hk Hs Hst).
  - rewrite Hd. apply relocated_tensors.
Qed.

Lemma get_swap_result_on_input_device_witness :
  exists r w',
    SwapProtocol.get_swap 8 (VList [VTensor "cpu" 0 true; VTensor "cuda" 1 true])
      capture_world = (Ok r, w') /\
    Forall (on_device "cuda") (util.visited r is_tensor).
Proof.
  apply (get_swap_result_on_input_device capture_world 8
           {[ "nnsight_swap" := VNode 8 "swap_0" ]}
           (VList [VTensor "cpu" 0 true; VTensor "cuda" 1 true]) 8 "swap_0" capture_swap
           (VList [VNode 8 "grad_0"; VTensor "cpu" 1 true]) "cuda"); reflexivity.
Defined.
